(** * The admin dashboard's API client (static/js/api-client.js)

    A shallow embedding of [class APIClient]: JavaScript values as far as the
    client inspects them, the client instance together with the browser state
    it touches, and [async] methods as resumptions that suspend at every
    [await].  A single call is run against a scripted network; [batch] is run
    under every interleaving of its member requests. *)

From stdpp Require Import base strings gmap list pretty.

Set Warnings "-register-all".

Open Scope Z_scope.

(** ** JavaScript values *)

(** The values a JSON body, a token or a request payload can be.  Numbers are
    the integers (a number with a fraction, [NaN] and the infinities are not
    represented); an object lists its own properties, each key once. *)
Inductive jsval : Type :=
| JUndefined
| JNull
| JBool (b : bool)
| JNum (n : Z)
| JStr (s : string)
| JArr (items : list jsval)
| JObj (fields : list (string * jsval)).

(** ToBoolean, as used by [if (x)], [x || y] and [x && y]. *)
Definition truthy (v : jsval) : bool :=
  match v with
  | JUndefined | JNull => false
  | JBool b => b
  | JNum n => negb (n =? 0)
  | JStr s => negb (String.eqb s "")
  | JArr _ | JObj _ => true
  end.

(** Two built-ins of the JavaScript engine are computed here only where
    their result is plain, and are taken from the engine elsewhere:
    [Number::toString] for the numbers beyond [Number.MAX_SAFE_INTEGER]
    (there the engine prints the shortest digits that read back as the same
    double, in exponent form from [1e21] on), and
    [String.prototype.toUpperCase] for strings with a character outside
    ASCII (there the mapping is Unicode's). *)
Class Platform : Type := mkPlatform {
  Number_toString : Z → string;
  String_toUpperCase : string → string }.

(** ToString of a number: a safe integer is printed as its digits. *)
Definition number_to_string `{Platform} (n : Z) : string :=
  if Z.abs n <=? 9007199254740991 then pretty n else Number_toString n.

(** ToString, as used by template literals, [new Error(x)] and
    [localStorage.setItem].  An array joins its elements with commas, printing
    [null] and [undefined] elements as nothing. *)
Fixpoint to_string `{Platform} (v : jsval) : string :=
  match v with
  | JUndefined => "undefined"
  | JNull => "null"
  | JBool true => "true"
  | JBool false => "false"
  | JNum n => number_to_string n
  | JStr s => s
  | JArr items =>
      (fix join (l : list jsval) : string :=
         match l with
         | [] => ""
         | x :: rest =>
             let here := match x with
                         | JUndefined | JNull => ""
                         | _ => to_string x
                         end in
             match rest with
             | [] => here
             | _ => here +:+ "," +:+ join rest
             end
         end) items
  | JObj _ => "[object Object]"
  end.

(** [a || b] on values. *)
Definition js_or (a b : jsval) : jsval := if truthy a then a else b.

(** Exceptions: the three constructors the client can meet. *)
Inductive exn : Type :=
| Error (msg : string)
| TypeError (msg : string)
| SyntaxError (msg : string).

Definition message (e : exn) : string :=
  match e with
  | Error m | TypeError m | SyntaxError m => m
  end.

(** A completion: either a thrown exception (a rejected promise) or a value
    (a fulfilled one). *)
Definition result (A : Type) : Type := (exn + A)%type.

Fixpoint assoc (name : string) (fields : list (string * jsval)) : jsval :=
  match fields with
  | [] => JUndefined
  | (k, v) :: rest => if String.eqb k name then v else assoc name rest
  end.

(** [v.name] for the property names the client reads ([error],
    [access_token], [refresh_token]): none of them is defined on a primitive
    or an array, and reading a property of [null] or [undefined] throws (the
    message is V8's). *)
Definition get_prop (v : jsval) (name : string) : result jsval :=
  match v with
  | JUndefined =>
      inl (TypeError ("Cannot read properties of undefined (reading '" +:+ name +:+ "')"))
  | JNull =>
      inl (TypeError ("Cannot read properties of null (reading '" +:+ name +:+ "')"))
  | JObj fields => inr (assoc name fields)
  | _ => inr JUndefined
  end.

Definition upper_ascii (c : Ascii.ascii) : Ascii.ascii :=
  let n := Ascii.nat_of_ascii c in
  if ((97 <=? n) && (n <=? 122))%nat then Ascii.ascii_of_nat (n - 32) else c.

(** Upper-casing a string of ASCII characters: the letters a to z are
    folded and nothing else changes. *)
Fixpoint upper (s : string) : string :=
  match s with
  | EmptyString => EmptyString
  | String c rest => String (upper_ascii c) (upper rest)
  end.

(** Whether every character of the string is an ASCII one. *)
Fixpoint ascii_only (s : string) : bool :=
  match s with
  | EmptyString => true
  | String (Ascii.Ascii _ _ _ _ _ _ _ high) rest => negb high && ascii_only rest
  end.

(** [s.toUpperCase()] on a string. *)
Definition upper_case `{Platform} (s : string) : string :=
  if ascii_only s then upper s else String_toUpperCase s.

(** [m.toUpperCase()]: only a string has the method. *)
Definition toUpperCase `{Platform} (m : jsval) : result string :=
  match m with
  | JStr s => inr (upper_case s)
  | JUndefined =>
      inl (TypeError "Cannot read properties of undefined (reading 'toUpperCase')")
  | JNull =>
      inl (TypeError "Cannot read properties of null (reading 'toUpperCase')")
  | _ => inl (TypeError "method.toUpperCase is not a function")
  end.

Arguments number_to_string : simpl nomatch.
Arguments upper_case : simpl nomatch.

(** ** Requests, responses and the client's world *)

(** What [fetch(url, config)] is called with. *)
Record Request : Type := mkRequest {
  url : string;
  method : string;
  headers : gmap string string;
  body : option string }.

(** The [options] argument of [request], spread over the config: the keys
    that meet the client's own. *)
Record Options : Type := mkOptions {
  o_method : option string;
  o_headers : option (gmap string string);
  o_body : option string }.

Definition no_options : Options := mkOptions None None None.

(** What the network hands back to [fetch]: a response whose body either
    parses as JSON or makes [json()] reject, or a rejection. *)
Record FetchResponse : Type := mkFetchResponse {
  f_status : Z;
  f_statusText : string;
  f_body : result jsval }.

Inductive FetchOutcome : Type :=
| Resolves (r : FetchResponse)
| Rejects (e : exn).

(** The object [handleResponse] receives.  Calling [json()] either throws
    at once or returns a promise that settles. *)
Record Response : Type := mkResponse {
  ok : bool;
  status : Z;
  statusText : string;
  json : result (result jsval) }.

(** A fetch [Response]: [ok] is the status being in 200..299, and [json()]
    always returns a promise. *)
Definition of_fetch (r : FetchResponse) : Response :=
  {| ok := (200 <=? f_status r) && (f_status r <=? 299);
     status := f_status r;
     statusText := f_statusText r;
     json := inr (f_body r) |}.

Definition FormData : Type := list (string * string).

(** An [XMLHttpRequest] as [upload] sends it. *)
Record XhrRequest : Type := mkXhr {
  x_url : string;
  x_headers : gmap string string;
  x_form : FormData }.

(** How the transfer ends: [onload] with the status line and the response
    text, or [onerror]. *)
Inductive XhrOutcome : Type :=
| XhrLoad (st : Z) (st_text : string) (responseText : string)
| XhrError.

(** The client instance ([baseURL], [token], [refreshToken]) and the browser
    state it reads and writes; the two logs record the calls that left. *)
Record World : Type := mkWorld {
  baseURL : string;
  token : jsval;
  refreshToken : jsval;
  localStorage : gmap string string;
  location_href : string;
  console : list (string * exn);
  fetchLog : list Request;
  xhrLog : list XhrRequest }.

Definition set_token (v : jsval) (w : World) : World :=
  mkWorld (baseURL w) v (refreshToken w) (localStorage w) (location_href w)
          (console w) (fetchLog w) (xhrLog w).

Definition set_refreshToken (v : jsval) (w : World) : World :=
  mkWorld (baseURL w) (token w) v (localStorage w) (location_href w)
          (console w) (fetchLog w) (xhrLog w).

Definition set_localStorage (m : gmap string string) (w : World) : World :=
  mkWorld (baseURL w) (token w) (refreshToken w) m (location_href w)
          (console w) (fetchLog w) (xhrLog w).

Definition set_location_href (h : string) (w : World) : World :=
  mkWorld (baseURL w) (token w) (refreshToken w) (localStorage w) h
          (console w) (fetchLog w) (xhrLog w).

Definition console_error (line : string) (e : exn) (w : World) : World :=
  mkWorld (baseURL w) (token w) (refreshToken w) (localStorage w) (location_href w)
          (console w ++ [(line, e)]) (fetchLog w) (xhrLog w).

Definition log_fetch (rq : Request) (w : World) : World :=
  mkWorld (baseURL w) (token w) (refreshToken w) (localStorage w) (location_href w)
          (console w) (fetchLog w ++ [rq]) (xhrLog w).

Definition log_xhr (rq : XhrRequest) (w : World) : World :=
  mkWorld (baseURL w) (token w) (refreshToken w) (localStorage w) (location_href w)
          (console w) (fetchLog w) (xhrLog w ++ [rq]).

(** [localStorage.getItem]: the stored string, or [null]. *)
Definition getItem (key : string) (m : gmap string string) : jsval :=
  match m !! key with
  | Some s => JStr s
  | None => JNull
  end.

(** [localStorage.setItem] stores the string form of the value. *)
Definition setItem `{Platform} (key : string) (v : jsval) (m : gmap string string)
    : gmap string string :=
  <[key := to_string v]> m.

Definition removeItem (key : string) (m : gmap string string) : gmap string string :=
  base.delete key m.

(** The response envelope: an object with [success] and, depending on the
    path, [data], [error] or the [retry] mark ([false] when absent). *)
Record Envelope : Type := mkEnvelope {
  success : bool;
  data : option jsval;
  error : option string;
  retry : bool }.

(** ** Async code as resumptions *)

(** A computation run from some world until it settles or reaches an
    [await]: the world at that point, and what it waits for.  The
    continuation receives the answer and the world as it is when the
    computation is resumed. *)
Inductive Run (A : Type) : Type :=
| Settled (w : World) (r : result A)
| AwaitFetch (w : World) (rq : Request) (k : FetchOutcome → World → Run A)
| AwaitXhr (w : World) (rq : XhrRequest) (k : XhrOutcome → World → Run A)
| AwaitTick (w : World) (k : World → Run A).

Arguments Settled {A} w r.
Arguments AwaitFetch {A} w rq k.
Arguments AwaitXhr {A} w rq k.
Arguments AwaitTick {A} w k.

Definition Async (A : Type) : Type := World → Run A.

Definition world_of {A} (r : Run A) : World :=
  match r with
  | Settled w _ | AwaitFetch w _ _ | AwaitXhr w _ _ | AwaitTick w _ => w
  end.

Definition ret {A} (a : A) : Async A := fun w => Settled w (inr a).

Definition throw {A} (e : exn) : Async A := fun w => Settled w (inl e).

Definition lift {A} (r : result A) : Async A := fun w => Settled w r.

Fixpoint bind_run {A B} (r : Run A) (f : A → Async B) : Run B :=
  match r with
  | Settled w (inr a) => f a w
  | Settled w (inl e) => Settled w (inl e)
  | AwaitFetch w rq k => AwaitFetch w rq (fun o w' => bind_run (k o w') f)
  | AwaitXhr w rq k => AwaitXhr w rq (fun o w' => bind_run (k o w') f)
  | AwaitTick w k => AwaitTick w (fun w' => bind_run (k w') f)
  end.

Definition bind {A B} (m : Async A) (f : A → Async B) : Async B :=
  fun w => bind_run (m w) f.

(** [try { m } catch (e) { h e }]. *)
Fixpoint catch_run {A} (r : Run A) (h : exn → Async A) : Run A :=
  match r with
  | Settled w (inr a) => Settled w (inr a)
  | Settled w (inl e) => h e w
  | AwaitFetch w rq k => AwaitFetch w rq (fun o w' => catch_run (k o w') h)
  | AwaitXhr w rq k => AwaitXhr w rq (fun o w' => catch_run (k o w') h)
  | AwaitTick w k => AwaitTick w (fun w' => catch_run (k w') h)
  end.

Definition try_catch {A} (m : Async A) (h : exn → Async A) : Async A :=
  fun w => catch_run (m w) h.

(** Awaiting a promise that is already settled, or whose settling involves
    nothing outside: the caller is suspended for a turn and then receives the
    completion. *)
Definition await_promise {A} (p : result A) : Async A :=
  fun w => AwaitTick w (fun w' => Settled w' p).

(** [await f(...)] for an async [f]: the callee runs at once up to its own
    first [await]; when it has settled, the caller takes one more turn to
    receive the completion. *)
Fixpoint await_run {A} (r : Run A) : Run A :=
  match r with
  | Settled w p => AwaitTick w (fun w' => Settled w' p)
  | AwaitFetch w rq k => AwaitFetch w rq (fun o w' => await_run (k o w'))
  | AwaitXhr w rq k => AwaitXhr w rq (fun o w' => await_run (k o w'))
  | AwaitTick w k => AwaitTick w (fun w' => await_run (k w'))
  end.

Definition await {A} (m : Async A) : Async A := fun w => await_run (m w).

(** [await fetch(url, config)]: the call leaves (and is logged) at once; the
    caller resumes with the response, or with the rejection thrown. *)
Definition fetch (rq : Request) : Async FetchResponse :=
  fun w => AwaitFetch (log_fetch rq w) rq
             (fun o w' => Settled w' match o with
                                     | Resolves r => inr r
                                     | Rejects e => inl e
                                     end).

(** [xhr.send(formData)] with [onload] and [onerror] installed. *)
Definition xhr_send (rq : XhrRequest) : Async XhrOutcome :=
  fun w => AwaitXhr (log_xhr rq w) rq (fun o w' => Settled w' (inr o)).

Definition gets {A} (f : World → A) : Async A := fun w => Settled w (inr (f w)).

Definition modify (f : World → World) : Async unit := fun w => Settled (f w) (inr tt).

Declare Scope async_scope.
Delimit Scope async_scope with async.
Notation "x <- m ;; k" := (bind m (fun x => k))
  (at level 100, m at next level, right associativity, only parsing) : async_scope.
Notation "m >> k" := (bind m (fun _ => k))
  (at level 100, right associativity, only parsing) : async_scope.

(** ** Running one call against a scripted network *)

(** The answers the outside gives, in the order they are asked for. *)
Record Env : Type := mkEnv {
  fetches : nat → FetchOutcome;
  xhrs : nat → XhrOutcome }.

Definition next_fetch (env : Env) : Env :=
  mkEnv (fun n => fetches env (S n)) (xhrs env).

Definition next_xhr (env : Env) : Env :=
  mkEnv (fetches env) (fun n => xhrs env (S n)).

Fixpoint run {A} (r : Run A) (env : Env) : World * result A :=
  match r with
  | Settled w p => (w, p)
  | AwaitFetch _ _ k => run (k (fetches env 0%nat) (world_of r)) (next_fetch env)
  | AwaitXhr _ _ k => run (k (xhrs env 0%nat) (world_of r)) (next_xhr env)
  | AwaitTick _ k => run (k (world_of r)) env
  end.

Definition exec {A} (m : Async A) (env : Env) (w : World) : World * result A :=
  run (m w) env.

(** ** Running several calls at once *)

(** The calls in flight share one world.  Whenever the event loop turns, one
    suspended call is resumed: with the outcome of its transfer, or because
    the promise it awaits has settled. *)
Definition Pool (A : Type) : Type := (World * list (Run A))%type.

Inductive pool_step {A} : Pool A → Pool A → Prop :=
| step_fetch w ts i w0 rq k o :
    ts !! i = Some (AwaitFetch w0 rq k) →
    pool_step (w, ts) (world_of (k o w), <[i := k o w]> ts)
| step_xhr w ts i w0 rq k o :
    ts !! i = Some (AwaitXhr w0 rq k) →
    pool_step (w, ts) (world_of (k o w), <[i := k o w]> ts)
| step_tick w ts i w0 k :
    ts !! i = Some (AwaitTick w0 k) →
    pool_step (w, ts) (world_of (k w), <[i := k w]> ts).

Definition settlement {A} (r : Run A) : option (result A) :=
  match r with
  | Settled _ p => Some p
  | _ => None
  end.

(** One call seen on its own: [resumes r r'] when [r'] is [r] after being
    resumed some number of times, in whatever worlds it then found. *)
Inductive resumes {A} : Run A → Run A → Prop :=
| resumes_here r : resumes r r
| resumes_fetch w rq k o w' r : resumes (k o w') r → resumes (AwaitFetch w rq k) r
| resumes_xhr w rq k o w' r : resumes (k o w') r → resumes (AwaitXhr w rq k) r
| resumes_tick w k w' r : resumes (k w') r → resumes (AwaitTick w k) r.

(** [within n r]: on every path, [r] is resumed at most [n] times before it
    settles. *)
Inductive within {A} : nat → Run A → Prop :=
| within_settled n w p : within n (Settled w p)
| within_fetch n w rq k : (∀ o w', within n (k o w')) → within (S n) (AwaitFetch w rq k)
| within_xhr n w rq k : (∀ o w', within n (k o w')) → within (S n) (AwaitXhr w rq k)
| within_tick n w k : (∀ w', within n (k w')) → within (S n) (AwaitTick w k).

(** Running a pool by hand: an event names the call to resume; one that
    does not fit what the call waits for is dropped. *)
Inductive Event : Type :=
| Deliver (i : nat) (o : FetchOutcome)
| Loaded (i : nat) (o : XhrOutcome)
| Turn (i : nat).

Definition dispatch {A} (ev : Event) (p : Pool A) : Pool A :=
  let '(w, ts) := p in
  match ev with
  | Deliver i o =>
      match ts !! i with
      | Some (AwaitFetch _ _ k) => (world_of (k o w), <[i := k o w]> ts)
      | _ => p
      end
  | Loaded i o =>
      match ts !! i with
      | Some (AwaitXhr _ _ k) => (world_of (k o w), <[i := k o w]> ts)
      | _ => p
      end
  | Turn i =>
      match ts !! i with
      | Some (AwaitTick _ k) => (world_of (k w), <[i := k w]> ts)
      | _ => p
      end
  end.

(** Resume call [i] until it settles, answering its transfers from [script]
    in order. *)
Fixpoint drive {A} (fuel i : nat) (script : list FetchOutcome) (p : Pool A) : Pool A :=
  match fuel with
  | O => p
  | S fuel' =>
      match p.2 !! i with
      | Some (AwaitFetch _ _ _) =>
          match script with
          | o :: rest => drive fuel' i rest (dispatch (Deliver i o) p)
          | [] => p
          end
      | Some (AwaitTick _ _) => drive fuel' i script (dispatch (Turn i) p)
      | _ => p
      end
  end.

(** ** The methods of [APIClient] *)

Definition promise_catch {A} (p : result A) (h : exn → A) : result A :=
  match p with
  | inl e => inr (h e)
  | inr a => inr a
  end.

(** [a || b] on strings: the empty string is the only falsy one. *)
Definition str_or (a b : string) : string :=
  if String.eqb a "" then b else a.

(** [{ ...config, ...options }]: a key of [options] replaces the config's. *)
Definition spread (config : Request) (options : Options) : Request :=
  {| url := url config;
     method := default (method config) (o_method options);
     headers := default (headers config) (o_headers options);
     body := match o_body options with
             | Some b => Some b
             | None => body config
             end |}.

Definition with_headers (h : gmap string string) (config : Request) : Request :=
  {| url := url config; method := method config; headers := h; body := body config |}.

Definition with_body (b : string) (config : Request) : Request :=
  {| url := url config; method := method config; headers := headers config;
     body := Some b |}.

(** [new APIClient()] in a browser with the given storage and location. *)
Definition constructor (storage : gmap string string) (href : string) : World :=
  {| baseURL := "/api";
     token := getItem "admin_token" storage;
     refreshToken := getItem "admin_refresh_token" storage;
     localStorage := storage;
     location_href := href;
     console := [];
     fetchLog := [];
     xhrLog := [] |}.

(** A member of [batch]'s argument, and an entry of its result;
    [b_request] is [requests[index]]. *)
Record Descriptor : Type := mkDescriptor {
  d_method : jsval;
  d_endpoint : string;
  d_data : jsval }.

Record BatchEntry : Type := mkBatchEntry {
  b_request : option Descriptor;
  b_success : bool;
  b_data : jsval;
  b_error : jsval }.

(** ** A sample session

    Concrete stand-ins for the engine and the platform functions, a browser
    holding a token pair, and a few answers of the backend; the statements
    below are exercised on them. *)

(** The engine of the sample session.  The session holds no number beyond
    the safe integers and no string outside ASCII, so neither function is
    ever consulted. *)
Definition demo_platform : Platform :=
  {| Number_toString := fun n => pretty n; String_toUpperCase := upper |}.

Definition demo_stringify (v : jsval) : string :=
  "json(" +:+ @to_string demo_platform v +:+ ")".

Definition demo_parse (text : string) : result jsval :=
  if String.eqb text "{}" then inr (JObj [])
  else if String.eqb text "null" then inr JNull
  else inl (SyntaxError "Unexpected token in JSON").

Fixpoint demo_query (params : list (string * jsval)) : string :=
  match params with
  | [] => ""
  | (k, v) :: rest =>
      match rest with
      | [] => k +:+ "=" +:+ @to_string demo_platform v
      | _ => k +:+ "=" +:+ @to_string demo_platform v +:+ "&" +:+ demo_query rest
      end
  end.

Definition session : World :=
  constructor (<["admin_token" := "T1"]> (<["admin_refresh_token" := "R1"]> ∅))
              "/admin/dashboard".

(** The network answers [fetch] calls from the list, in order, and refuses
    any further one; an upload ends as [upload_end] says. *)
Definition answers (replies : list FetchOutcome) (upload_end : XhrOutcome) : Env :=
  {| fetches := fun n => nth n replies (Rejects (TypeError "Failed to fetch"));
     xhrs := fun _ => upload_end |}.

Definition unauthorized : FetchResponse :=
  mkFetchResponse 401 "UNAUTHORIZED" (inr (JObj [("error", JStr "Token has expired")])).

Definition fresh_tokens : list (string * jsval) :=
  [("access_token", JStr "T2"); ("refresh_token", JStr "R2")].

Definition newer_tokens : list (string * jsval) :=
  [("access_token", JStr "T3"); ("refresh_token", JStr "R3")].

Definition access_only : list (string * jsval) := [("access_token", JStr "T2")].

Definition granted (fields : list (string * jsval)) : FetchResponse :=
  mkFetchResponse 200 "OK" (inr (JObj fields)).

Definition users_page : jsval := JObj [("users", JArr []); ("total", JNum 0)].


Definition page (v : jsval) : FetchResponse := mkFetchResponse 200 "OK" (inr v).

Definition broken_null : FetchResponse :=
  mkFetchResponse 500 "INTERNAL SERVER ERROR" (inr JNull).

Definition refused : FetchOutcome := Rejects (TypeError "Failed to fetch").

Definition traced : Options :=
  mkOptions None (Some {[ "X-Request-Id" := "42" ]}) None.



(** A stand-in for the number formatter, a browser that holds no session,
    and a few more answers and arguments. *)
Definition demo_format (v : jsval) : string := "#" +:+ @to_string demo_platform v.

Definition visitor : World := constructor ∅ "/admin/login".

Definition login_reply : jsval :=
  JObj [("access_token", JStr "T9"); ("refresh_token", JStr "R9")].

Definition health_report : list (string * jsval) := [("overall_healthy", JBool true)].

Definition dashboard_figures : list (string * jsval) :=
  [("users", JObj [("total", JNum 12)]); ("tasks", JObj [("completed", JNum 7)])].

Definition unavailable : FetchResponse :=
  mkFetchResponse 503 "SERVICE UNAVAILABLE" (inr (JObj [])).

Definition import_form : FormData := [("file", "users.csv"); ("type", "users")].

(** A batch whose first member has no method. *)
Definition methodless : Descriptor := mkDescriptor JUndefined "/admin/users" JNull.

Definition mixed_requests : list Descriptor :=
  [methodless; mkDescriptor (JStr "get") "/admin/users" JNull].

Section Client.

(** The engine the client runs on. *)
Context {platform : Platform}.

(** The platform's [JSON.stringify], [JSON.parse] (which throws on text
    that is not JSON) and [new URLSearchParams(params).toString()]. *)
Variable JSON_stringify : jsval → string.
Variable JSON_parse : string → result jsval.
Variable URLSearchParams_toString : list (string * jsval) → string.

Local Open Scope async_scope.

Definition setToken (tok rt : jsval) : Async unit :=
  modify (set_token tok) >>
  modify (fun w => set_localStorage (setItem "admin_token" tok (localStorage w)) w) >>
  (if truthy rt then
     modify (set_refreshToken rt) >>
     modify (fun w =>
               set_localStorage (setItem "admin_refresh_token" rt (localStorage w)) w)
   else ret tt).

Definition clearAuth : Async unit :=
  modify (set_token JNull) >>
  modify (set_refreshToken JNull) >>
  modify (fun w => set_localStorage (removeItem "admin_token" (localStorage w)) w) >>
  modify (fun w =>
            set_localStorage (removeItem "admin_refresh_token" (localStorage w)) w).

Definition default_headers : gmap string string :=
  <["Accept" := "application/json"]> (<["Content-Type" := "application/json"]> ∅).

Definition headers_for (tok : jsval) : gmap string string :=
  if truthy tok
  then <["Authorization" := "Bearer " +:+ to_string tok]> default_headers
  else default_headers.

Definition getHeaders : Async (gmap string string) :=
  tok <- gets token ;;
  ret (headers_for tok).

(** [await response.json()]. *)
Definition await_json (response : Response) : Async jsval :=
  match json response with
  | inl e => throw e
  | inr p => await_promise p
  end.

Definition refresh_request (base : string) (rt : jsval) : Request :=
  {| url := base +:+ "/auth/refresh";
     method := "POST";
     headers := {[ "Content-Type" := "application/json" ]};
     body := Some (JSON_stringify (JObj [("refresh_token", rt)])) |}.

Definition refreshAuthToken : Async bool :=
  try_catch
    (base <- gets baseURL ;;
     rt <- gets refreshToken ;;
     r <- fetch (refresh_request base rt) ;;
     let response := of_fetch r in
     if ok response then
       body <- await_json response ;;
       access <- lift (get_prop body "access_token") ;;
       refresh <- lift (get_prop body "refresh_token") ;;
       setToken access refresh >>
       ret true
     else ret false)
    (fun e =>
       modify (console_error "Token refresh failed:" e) >>
       ret false).

Definition retry_envelope : Envelope :=
  {| success := false; data := None; error := None; retry := true |}.

Definition auth_required : Envelope :=
  {| success := false; data := None;
     error := Some "Authentication required"; retry := false |}.

(** [`HTTP ${response.status}: ${response.statusText}`]. *)
Definition http_error (response : Response) : string :=
  "HTTP " +:+ pretty (status response) +:+ ": " +:+ statusText response.

Definition succeeded (body : jsval) : Envelope :=
  {| success := true; data := Some body; error := None; retry := false |}.

Definition handleResponse (response : Response) : Async Envelope :=
  body <- match json response with
         | inl e => throw e
         | inr p => await_promise (promise_catch p (fun _ => JObj []))
         end ;;
  if negb (ok response) then
    if status response =? 401 then
      let sign_out :=
        clearAuth >>
        modify (set_location_href "/admin/login") >>
        ret auth_required in
      rt <- gets refreshToken ;;
      if truthy rt then
        refreshed <- await refreshAuthToken ;;
        if refreshed then ret retry_envelope else sign_out
      else sign_out
    else
      err <- lift (get_prop body "error") ;;
      throw (Error (to_string (js_or err (JStr (http_error response)))))
  else ret (succeeded body).

(** The config object [request] builds before its [try] block. *)
Definition build_config (target m : string) (hs : gmap string string)
    (payload : jsval) (options : Options) : Request :=
  let config := spread (mkRequest target m hs None) options in
  if truthy payload && bool_decide (method config ∈ ["POST"; "PUT"; "PATCH"])
  then with_body (JSON_stringify payload) config
  else config.

Definition failure (e : exn) : Envelope :=
  {| success := false; data := None;
     error := Some (str_or (message e) "Network error occurred");
     retry := false |}.

(** The body of [request]'s [try] block. *)
Definition attempt (config : Request) : Async Envelope :=
  r <- fetch config ;;
  result <- await (handleResponse (of_fetch r)) ;;
  if retry result then
    hs <- getHeaders ;;
    r' <- fetch (with_headers hs config) ;;
    await (handleResponse (of_fetch r'))
  else ret result.

(** Its [catch] block. *)
Definition report (meth : jsval) (endpoint : string) (e : exn) : Async Envelope :=
  modify (console_error
            ("API " +:+ to_string meth +:+ " " +:+ endpoint +:+ " failed:") e) >>
  ret (failure e).

Definition request (meth : jsval) (endpoint : string) (payload : jsval)
    (options : Options) : Async Envelope :=
  base <- gets baseURL ;;
  m <- lift (toUpperCase meth) ;;
  hs <- getHeaders ;;
  let config := build_config (base +:+ endpoint) m hs payload options in
  try_catch (attempt config) (report meth endpoint).

Definition get (endpoint : string) (params : list (string * jsval)) : Async Envelope :=
  let queryString := URLSearchParams_toString params in
  let target := if negb (String.eqb queryString "")
                then endpoint +:+ "?" +:+ queryString
                else endpoint in
  request (JStr "GET") target JNull no_options.

Definition post (endpoint : string) (payload : jsval) : Async Envelope :=
  request (JStr "POST") endpoint payload no_options.

Definition put (endpoint : string) (payload : jsval) : Async Envelope :=
  request (JStr "PUT") endpoint payload no_options.

Definition patch (endpoint : string) (payload : jsval) : Async Envelope :=
  request (JStr "PATCH") endpoint payload no_options.

Definition delete (endpoint : string) : Async Envelope :=
  request (JStr "DELETE") endpoint JNull no_options.

(** The object [xhr.onload] builds: [json] calls [JSON.parse] before any
    promise exists, so text that is not JSON makes the call itself throw. *)
Definition of_xhr (st : Z) (st_text responseText : string) : Response :=
  {| ok := (200 <=? st) && (st <? 300);
     status := st;
     statusText := st_text;
     json := match JSON_parse responseText with
             | inl e => inl e
             | inr v => inr (inr v)
             end |}.

(** [upload]: the promise resolves with what [handleResponse] returns and
    rejects with what it throws, or with [Error('Upload failed')] from
    [onerror].  The progress listener only calls the caller's callback. *)
Definition upload (endpoint : string) (formData : FormData) : Async Envelope :=
  base <- gets baseURL ;;
  tok <- gets token ;;
  let auth : gmap string string :=
    if truthy tok then {[ "Authorization" := "Bearer " +:+ to_string tok ]} else ∅ in
  o <- xhr_send (mkXhr (base +:+ endpoint) auth formData) ;;
  match o with
  | XhrLoad st st_text responseText =>
      try_catch (await (handleResponse (of_xhr st st_text responseText)))
                (fun e => throw e)
  | XhrError => throw (Error "Upload failed")
  end.

(** [requests.map(req => this.request(req.method, req.endpoint, req.data))]:
    each call runs up to its first [await] before the next one starts. *)
Fixpoint start_all (requests : list Descriptor) (w : World) : Pool Envelope :=
  match requests with
  | [] => (w, [])
  | req :: rest =>
      let r := request (d_method req) (d_endpoint req) (d_data req) no_options w in
      let '(w', rs) := start_all rest (world_of r) in
      (w', r :: rs)
  end.

(** The callback of [results.map]: [p] is the settlement of the promise at
    [index], rejected ([inl]) or fulfilled ([inr]). *)
Definition entry (requests : list Descriptor) (index : nat) (p : result Envelope)
    : BatchEntry :=
  {| b_request := requests !! index;
     b_success := match p with
                  | inr value => success value
                  | inl _ => false
                  end;
     b_data := match p with
               | inr value => default JUndefined (data value)
               | inl _ => JNull
               end;
     b_error := match p with
                | inl reason => JStr (message reason)
                | inr value =>
                    if negb (success value)
                    then from_option JStr JUndefined (error value)
                    else JNull
                end |}.

(** [batch requests w w' entries]: called in [w], [batch(requests)] can
    return [entries] and leave the world [w'].  It returns once
    [Promise.allSettled] has seen every call settle, whatever the order in
    which they were resumed.  ([allSettled] never rejects and the callback
    reads only what a settlement carries, so the [catch] block of [batch] is
    not reached.) *)
Inductive batch (requests : list Descriptor) (w : World)
    : World → list BatchEntry → Prop :=
| batch_settled w' ts results :
    rtc pool_step (start_all requests w) (w', ts) →
    mapM settlement ts = Some results →
    batch requests w w' (imap (entry requests) results).



(** ** What one call does *)

(** The request a call to [request] sends first. *)
Definition outgoing (w : World) (m endpoint : string) (payload : jsval)
    (options : Options) : Request :=
  build_config (baseURL w +:+ endpoint) (upper_case m) (headers_for (token w))
               payload options.

(** Whether a refresh attempt that receives [o] succeeds: the endpoint
    answered 2xx with a JSON body whose properties can be read. *)
Definition refresh_succeeds (o : FetchOutcome) : bool :=
  match o with
  | Rejects _ => false
  | Resolves r =>
      ok (of_fetch r) &&
      match f_body r with
      | inl _ | inr JNull | inr JUndefined => false
      | inr _ => true
      end
  end.

(** The session is over: no token is left in the client or in storage, and
    the browser has been sent to the login page. *)
Definition signed_out (w : World) : Prop :=
  token w = JNull
  ∧ refreshToken w = JNull
  ∧ localStorage w !! "admin_token" = None
  ∧ localStorage w !! "admin_refresh_token" = None
  ∧ location_href w = "/admin/login".

(** An operation that reports through its envelope: it never throws; when
    its first transfer is rejected it returns [{success: false, error}] with
    the rejection's message, or the stock one when that is empty; and when
    any transfer it made was rejected, what it returns has [success] false
    and a non-empty [error]. *)
Definition enveloping (op : Async Envelope) : Prop :=
  ∀ env w,
    let x := exec op env w in
    (∃ envelope, x.2 = inr envelope)
    ∧ (∀ e, fetches env 0%nat = Rejects e →
            x.2 = inr {| success := false; data := None;
                         error := Some (str_or (message e) "Network error occurred");
                         retry := false |})
    ∧ (∀ i e, (length (fetchLog w) + i < length (fetchLog x.1))%nat →
              fetches env i = Rejects e →
              ∃ envelope s, x.2 = inr envelope
                            ∧ success envelope = false
                            ∧ error envelope = Some s
                            ∧ s ≠ "").

(** ** More of the client, and two of its callers *)

(** What is left of the scripted answers once [r] has run. *)
Fixpoint rest {A} (r : Run A) (env : Env) : Env :=
  match r with
  | Settled _ _ => env
  | AwaitFetch _ _ k => rest (k (fetches env 0%nat) (world_of r)) (next_fetch env)
  | AwaitXhr _ _ k => rest (k (xhrs env 0%nat) (world_of r)) (next_xhr env)
  | AwaitTick _ k => rest (k (world_of r)) env
  end.

Definition login (email password : jsval) : Async Envelope :=
  post "/auth/admin/login" (JObj [("email", email); ("password", password)]).

(** [logout]: [this.post('/auth/logout')] passes no data. *)
Definition logout : Async Envelope :=
  result <- await (post "/auth/logout" JUndefined) ;;
  clearAuth >>
  ret result.

(** [importData]: the form carries the file and then the type. *)
Definition importData (type file : string) : Async Envelope :=
  upload "/admin/import" [("file", file); ("type", type)].

(** Called in [w], [op] starts by sending [rq]. *)
Definition sends (op : Async Envelope) (w : World) (rq : Request) : Prop :=
  ∃ k, op w = AwaitFetch (log_fetch rq w) rq k.

(** A run of [batch(mixed_requests)] in the sample session: the second
    member is resumed until it settles. *)
Definition methodless_run : Pool Envelope :=
  drive 12 1 [Resolves (page users_page)] (start_all mixed_requests session).

(** *** [AdminDashboard.checkSystemStatus] (static/js/admin-dashboard.js) *)

(** The element [#systemStatus] as far as the dashboard writes it: its
    class, and the text of the element after it, if there is one.  A page
    without the element is [None]. *)
Record Indicator : Type := mkIndicator {
  className : string;
  sibling_text : option string }.

Definition updateSystemStatus (isHealthy : jsval) (dom : option Indicator)
    : option Indicator :=
  match dom with
  | None => None
  | Some el =>
      Some {| className := "status-indicator "
                           +:+ (if truthy isHealthy then "online" else "offline");
              sibling_text :=
                match sibling_text el with
                | Some _ => Some (if truthy isHealthy
                                  then "النظام متصل"
                                  else "النظام غير متصل")
                | None => None
                end |}
  end.

(** The page is passed in and handed back; [apiClient] is the client of the
    world. *)
Definition checkSystemStatus (dom : option Indicator) : Async (option Indicator) :=
  try_catch
    (response <- await (get "/admin/system/health" []) ;;
     if success response then
       healthy <- lift (get_prop (default JUndefined (data response))
                                 "overall_healthy") ;;
       ret (updateSystemStatus healthy dom)
     else ret dom)
    (fun e =>
       modify (console_error "Error checking system status:" e) >>
       ret (updateSystemStatus (JBool false) dom)).

(** *** [AdminDashboard.loadDashboardStats] *)

(** [new Intl.NumberFormat('ar-EG').format(num)]. *)
Variable formatNumber : jsval → string.

(** The text of the four counters; [None] for one the page does not have. *)
Record StatsDom : Type := mkStatsDom {
  totalUsers : option string;
  totalRevenue : option string;
  totalTasks : option string;
  totalCredits : option string }.

(** [data.group?.field || 0]. *)
Definition stat (stats : jsval) (group field : string) : result jsval :=
  match get_prop stats group with
  | inl e => inl e
  | inr JUndefined | inr JNull => inr (JNum 0)
  | inr g =>
      match get_prop g field with
      | inl e => inl e
      | inr v => inr (js_or v (JNum 0))
      end
  end.

(** [if (el) el.textContent = prefix + this.formatNumber(...)]: the value is
    only read when the element is there. *)
Definition card (el : option string) (stats : jsval) (group field prefix : string)
    : result (option string) :=
  match el with
  | None => inr None
  | Some _ =>
      match stat stats group field with
      | inl e => inl e
      | inr v => inr (Some (prefix +:+ formatNumber v))
      end
  end.

(** [updateStatsCards]: the page as the call leaves it, and whether it
    returned or threw. *)
Definition updateStatsCards (stats : jsval) (dom : StatsDom) : StatsDom * result unit :=
  match card (totalUsers dom) stats "users" "total" "" with
  | inl e => (dom, inl e)
  | inr users =>
      let dom1 := mkStatsDom users (totalRevenue dom) (totalTasks dom)
                             (totalCredits dom) in
      match card (totalRevenue dom) stats "subscriptions" "total_revenue" "$" with
      | inl e => (dom1, inl e)
      | inr revenue =>
          let dom2 := mkStatsDom users revenue (totalTasks dom) (totalCredits dom) in
          match card (totalTasks dom) stats "tasks" "completed" "" with
          | inl e => (dom2, inl e)
          | inr tasks =>
              let dom3 := mkStatsDom users revenue tasks (totalCredits dom) in
              match card (totalCredits dom) stats "credits" "total_used" "" with
              | inl e => (dom3, inl e)
              | inr credits => (mkStatsDom users revenue tasks credits, inr tt)
              end
          end
      end
  end.

(** The figures of the [catch] block. *)
Definition mock_stats : jsval :=
  JObj [("users", JObj [("total", JNum 1250); ("active", JNum 980);
                        ("new_today", JNum 15)]);
        ("subscriptions", JObj [("active", JNum 450); ("total_revenue", JNum 25680)]);
        ("tasks", JObj [("total", JNum 8750); ("completed", JNum 7320);
                        ("pending", JNum 890); ("failed", JNum 540)]);
        ("credits", JObj [("total_used", JNum 156780)])].

(** The [try] block hands the page it reached to the [catch] block, together
    with what was thrown, if anything. *)
Definition loadDashboardStats (dom : StatsDom) : Async StatsDom :=
  tried <- try_catch
             (response <- await (get "/admin/dashboard" []) ;;
              if success response then
                let '(dom1, outcome) :=
                  updateStatsCards (default JUndefined (data response)) dom in
                ret (dom1, match outcome with
                           | inl e => Some e
                           | inr _ => None
                           end)
              else ret (dom, None))
             (fun e => ret (dom, Some e)) ;;
  match tried with
  | (dom1, None) => ret dom1
  | (dom1, Some e) =>
      modify (console_error "Error loading dashboard stats:" e) >>
      let '(dom2, outcome) := updateStatsCards mock_stats dom1 in
      match outcome with
      | inl e' => throw e'
      | inr _ => ret dom2
      end
  end.

(** A page with the indicator and its label, and one with three of the
    four counters. *)
Definition status_light : option Indicator :=
  Some {| className := "status-indicator"; sibling_text := Some "..." |}.

Definition counters : StatsDom :=
  {| totalUsers := Some "0"; totalRevenue := Some "$0"; totalTasks := Some "0";
     totalCredits := None |}.

Arguments build_config : simpl never.
Arguments headers_for : simpl never.
Arguments refresh_request : simpl never.
Arguments http_error : simpl never.
Arguments to_string : simpl never.
Arguments removeItem : simpl never.
Arguments setItem : simpl never.

(** Symbolic execution: unfold the monad and let [run] consume the
    suspensions. *)
Ltac go :=
  repeat (progress (unfold exec, bind, gets, modify, ret, throw, lift, await,
                      try_catch, fetch, xhr_send, await_promise, await_json,
                      getHeaders, clearAuth, setToken;
                    simpl)).

(** Case analysis on whatever the execution is waiting to learn: a network
    answer, a body, a property, a condition. *)
Ltac split_path :=
  match goal with
  | |- context [match fetches ?e ?n with _ => _ end] => destruct (fetches e n) eqn:?
  | |- context [match f_body ?r with _ => _ end] => destruct (f_body r)
  | |- context [match get_prop ?v ?n with _ => _ end] => destruct (get_prop v n)
  | |- context [match promise_catch ?p ?h with _ => _ end] => destruct p
  | |- context [if ?c then _ else _] => destruct c
  end.

Lemma in_2xx st : 200 ≤ st ≤ 299 → (200 <=? st) && (st <=? 299) = true.
Proof. intros [Hlo Hhi]. apply andb_true_intro. split; lia. Qed.

Lemma out_2xx st : ¬ 200 ≤ st ≤ 299 → (200 <=? st) && (st <=? 299) = false.
Proof. intros Hout. apply andb_false_iff. lia. Qed.

Lemma not_401 st : st ≠ 401 → (st =? 401) = false.
Proof. lia. Qed.



Lemma refreshAuthToken_returns env w :
  (exec refreshAuthToken env w).2 = inr (refresh_succeeds (fetches env 0%nat)).
Proof.
  unfold refreshAuthToken. go.
  destruct (fetches env 0%nat) as [r|e]; go; [|reflexivity].
  destruct ((200 <=? f_status r) && (f_status r <=? 299)); go; [|reflexivity].
  destruct (f_body r) as [e|[]]; go; try reflexivity.
  all: destruct (truthy _); reflexivity.
Qed.

Lemma removeItem_both (store : gmap string string) :
  removeItem "admin_refresh_token" (removeItem "admin_token" store) !! "admin_token"
  = None
  ∧ removeItem "admin_refresh_token" (removeItem "admin_token" store)
      !! "admin_refresh_token"
    = None.
Proof.
  unfold removeItem. split.
  - rewrite lookup_delete_ne by done. apply lookup_delete_eq.
  - apply lookup_delete_eq.
Qed.

(** The 401 branch of [handleResponse] when there is nothing to refresh
    with, or the refresh attempt fails. *)
Lemma handleResponse_signs_out env w (response : Response) p :
  ok response = false →
  status response = 401 →
  json response = inr p →
  truthy (refreshToken w) = false ∨ refresh_succeeds (fetches env 0%nat) = false →
  let x := exec (handleResponse response) env w in
  x.2 = inr auth_required
  ∧ signed_out x.1
  ∧ fetchLog x.1
    = fetchLog w
        ++ (if truthy (refreshToken w)
            then [refresh_request (baseURL w) (refreshToken w)]
            else []).
Proof.
  intros Hok Hst Hjson Hrefresh.
  unfold signed_out, handleResponse. go. rewrite Hjson. go. rewrite Hok, Hst. simpl.
  destruct (removeItem_both (localStorage w)) as [Hgone1 Hgone2].
  assert (Hcaught : ∃ v, promise_catch p (λ _ : exn, JObj []) = inr v).
  { destruct p; simpl; eauto. }
  destruct Hcaught as [v ->].
  destruct (truthy (refreshToken w)) eqn:Hrt.
  - destruct Hrefresh as [|Hfail]; [done|].
    unfold refresh_succeeds in Hfail.
    destruct (fetches env 0%nat) as [r2|e2] eqn:Hfetch2; simpl in Hfail.
    + destruct ((200 <=? f_status r2) && (f_status r2 <=? 299)) eqn:H2xx;
        simpl in Hfail.
      * destruct (f_body r2) as [e3|[]] eqn:Hbody2; try discriminate Hfail.
        all: go; rewrite ?Hrt; unfold refreshAuthToken; go.
        all: rewrite ?Hfetch2; go; rewrite ?H2xx; go; rewrite ?Hbody2; go.
        all: by repeat split.
      * go; rewrite ?Hrt; unfold refreshAuthToken; go.
        rewrite ?Hfetch2; go; rewrite ?H2xx; go. by repeat split.
    + go; rewrite ?Hrt; unfold refreshAuthToken; go.
      rewrite ?Hfetch2; go. by repeat split.
  - go; rewrite ?Hrt; go. rewrite app_nil_r. by repeat split.
Qed.

Lemma request_signs_out env w m endpoint payload options r :
  fetches env 0%nat = Resolves r →
  f_status r = 401 →
  truthy (refreshToken w) = false ∨ refresh_succeeds (fetches env 1%nat) = false →
  let x := exec (request (JStr m) endpoint payload options) env w in
  x.2 = inr auth_required
  ∧ signed_out x.1
  ∧ fetchLog x.1
    = fetchLog w
        ++ outgoing w m endpoint payload options
        :: (if truthy (refreshToken w)
            then [refresh_request (baseURL w) (refreshToken w)]
            else []).
Proof.
  intros Hfetch Hst Hrefresh.
  destruct (removeItem_both (localStorage w)) as [Hgone1 Hgone2].
  unfold signed_out, request, attempt, report. go. rewrite Hfetch.
  unfold handleResponse. go. rewrite Hst. simpl.
  destruct (truthy (refreshToken w)) eqn:Hrt.
  - destruct Hrefresh as [|Hfail]; [done|].
    assert (Hlog : ∀ (l : list Request) a b, (l ++ [a]) ++ [b] = l ++ [a; b]).
    { intros. by rewrite <- app_assoc. }
    unfold refresh_succeeds in Hfail.
    destruct (fetches env 1%nat) as [r2|e2] eqn:Hfetch2; simpl in Hfail.
    + destruct ((200 <=? f_status r2) && (f_status r2 <=? 299)) eqn:H2xx;
        simpl in Hfail.
      * destruct (f_body r2) as [e3|[]] eqn:Hbody2; try discriminate Hfail.
        all: destruct (f_body r); go; rewrite ?Hrt; unfold refreshAuthToken; go.
        all: rewrite Hfetch2; go; rewrite H2xx; go; rewrite Hbody2; go.
        all: rewrite Hlog; by repeat split.
      * destruct (f_body r); go; rewrite ?Hrt; unfold refreshAuthToken; go.
        all: rewrite Hfetch2; go; rewrite H2xx; go.
        all: rewrite Hlog; by repeat split.
    + destruct (f_body r); go; rewrite ?Hrt; unfold refreshAuthToken; go.
      all: rewrite Hfetch2; go.
      all: rewrite Hlog; by repeat split.
  - destruct (f_body r); go; rewrite ?Hrt; go.
    all: by repeat split.
Qed.

(** C3. A 401 met while no refresh token is stored, or while the refresh
    attempt fails, ends the session: [handleResponse] returns the
    "Authentication required" envelope, clears both tokens in the client and
    in storage and points the browser at the login page, having sent nothing
    but the refresh attempt (if one was made).  When that 401 is the first
    response of a [request], this envelope is what the call returns and the
    original request is not sent again. *)
Theorem request_401_signs_out :
  (∀ env w (response : Response) p,
     ok response = false →
     status response = 401 →
     json response = inr p →
     truthy (refreshToken w) = false ∨ refresh_succeeds (fetches env 0%nat) = false →
     let x := exec (handleResponse response) env w in
     x.2 = inr {| success := false; data := None;
                  error := Some "Authentication required"; retry := false |}
     ∧ signed_out x.1
     ∧ fetchLog x.1
       = fetchLog w
           ++ (if truthy (refreshToken w)
               then [refresh_request (baseURL w) (refreshToken w)]
               else []))
  ∧ (∀ env w m endpoint payload options r,
       fetches env 0%nat = Resolves r →
       f_status r = 401 →
       truthy (refreshToken w) = false ∨ refresh_succeeds (fetches env 1%nat) = false →
       let x := exec (request (JStr m) endpoint payload options) env w in
       x.2 = inr {| success := false; data := None;
                    error := Some "Authentication required"; retry := false |}
       ∧ signed_out x.1
       ∧ fetchLog x.1
         = fetchLog w
             ++ outgoing w m endpoint payload options
             :: (if truthy (refreshToken w)
                 then [refresh_request (baseURL w) (refreshToken w)]
                 else [])).
Proof.
  split.
  - intros env w response p Hok Hst Hjson Hrefresh.
    exact (handleResponse_signs_out env w response p Hok Hst Hjson Hrefresh).
  - intros env w m endpoint payload options r Hfetch Hst Hrefresh.
    exact (request_signs_out env w m endpoint payload options r Hfetch Hst Hrefresh).
Qed.

Lemma str_or_nonempty s d : s ≠ "" → str_or s d = s.
Proof.
  intros Hs. unfold str_or. by destruct (String.eqb_spec s "").
Qed.

(** What [request] makes of a response that is neither 2xx nor 401 when its
    body is a JSON object, or is not JSON at all (then [fields] is empty):
    the thrown [Error] carries [data.error || `HTTP ...`] and the [catch]
    block turns it into the envelope. *)
Lemma request_http_error env w m endpoint payload options r fields :
  fetches env 0%nat = Resolves r →
  ¬ 200 ≤ f_status r ≤ 299 →
  f_status r ≠ 401 →
  f_body r = inr (JObj fields) ∨ (∃ e, f_body r = inl e) ∧ fields = [] →
  (exec (request (JStr m) endpoint payload options) env w).2
  = inr (failure (Error (to_string (js_or (assoc "error" fields)
                                          (JStr (http_error (of_fetch r))))))).
Proof.
  intros Hfetch Hout H401 Hbody.
  unfold request, attempt, report. go. rewrite Hfetch. unfold handleResponse. go.
  rewrite (out_2xx _ Hout), (not_401 _ H401).
  destruct Hbody as [Hbody|[[e Hbody] ->]]; rewrite Hbody; go; reflexivity.
Qed.

(** In particular: a non-empty string under [error] in the body is the
    envelope's error; a body that is an object without a truthy [error], or
    that is not JSON, yields the status line. *)
Lemma request_error_message env w m endpoint payload options r fields :
  fetches env 0%nat = Resolves r →
  ¬ 200 ≤ f_status r ≤ 299 →
  f_status r ≠ 401 →
  f_body r = inr (JObj fields) ∨ (∃ e, f_body r = inl e) ∧ fields = [] →
  let x := exec (request (JStr m) endpoint payload options) env w in
  (∀ s, assoc "error" fields = JStr s → s ≠ "" →
        x.2 = inr {| success := false; data := None; error := Some s; retry := false |})
  ∧ (truthy (assoc "error" fields) = false →
     x.2 = inr {| success := false; data := None;
                  error := Some ("HTTP " +:+ pretty (f_status r) +:+ ": "
                                   +:+ f_statusText r);
                  retry := false |}).
Proof.
  intros Hfetch Hout H401 Hbody x. subst x.
  rewrite (request_http_error _ _ _ _ _ _ _ _ Hfetch Hout H401 Hbody).
  unfold failure, js_or. split.
  - intros s Hs Hne. rewrite Hs. simpl.
    destruct (String.eqb_spec s ""); [done|]. simpl.
    unfold to_string. by rewrite str_or_nonempty.
  - intros Hfalsy. rewrite Hfalsy. reflexivity.
Qed.

(** C6. A response that is neither 2xx nor 401 and whose body is the JSON
    value [null] makes [data.error] throw: the envelope's error is that
    TypeError's message, not the status line. *)
Theorem request_null_body_error env w m endpoint payload options r :
  fetches env 0%nat = Resolves r →
  ¬ 200 ≤ f_status r ≤ 299 →
  f_status r ≠ 401 →
  f_body r = inr JNull →
  (exec (request (JStr m) endpoint payload options) env w).2
  = inr {| success := false; data := None;
           error := Some "Cannot read properties of null (reading 'error')";
           retry := false |}.
Proof.
  intros Hfetch Hout H401 Hbody.
  unfold request, attempt, report. go. rewrite Hfetch. unfold handleResponse. go.
  rewrite (out_2xx _ Hout), (not_401 _ H401), Hbody. go. reflexivity.
Qed.

(** A [fetch] response whose body is not JSON is read as [{}]. *)
Lemma request_tolerates_unparseable env w m endpoint payload options r e :
  fetches env 0%nat = Resolves r →
  200 ≤ f_status r ≤ 299 →
  f_body r = inl e →
  (exec (request (JStr m) endpoint payload options) env w).2
  = inr {| success := true; data := Some (JObj []); error := None; retry := false |}.
Proof.
  intros Hfetch Hst Hbody.
  unfold request, attempt, report. go. rewrite Hfetch. unfold handleResponse. go.
  rewrite Hbody. go. rewrite (in_2xx _ Hst). reflexivity.
Qed.

(** C7. When the text an upload receives is not JSON, whatever the status,
    [JSON.parse] throws inside [json()] before [.catch] is attached, and the
    upload's promise rejects with that exception. *)
Theorem upload_rejects_unparseable env w endpoint formData st st_text responseText e :
  xhrs env 0%nat = XhrLoad st st_text responseText →
  JSON_parse responseText = inl e →
  (exec (upload endpoint formData) env w).2 = inl e.
Proof.
  intros Hxhr Hparse. unfold upload. go. rewrite Hxhr. simpl.
  unfold handleResponse, of_xhr. go. rewrite Hparse. reflexivity.
Qed.

Lemma headers_for_lookup tok :
  headers_for tok !! "Content-Type" = Some "application/json"
  ∧ headers_for tok !! "Accept" = Some "application/json"
  ∧ headers_for tok !! "Authorization"
    = if truthy tok then Some ("Bearer " +:+ to_string tok) else None.
Proof.
  unfold headers_for, default_headers.
  destruct (truthy tok); by simplify_map_eq.
Qed.

(** C10. [refreshAuthToken] never throws, and sends exactly one request, to
    the refresh endpoint, carrying the stored refresh token.  When the
    endpoint answers 2xx with a JSON object it returns [true]; the access
    token becomes the body's [access_token] and is persisted, while the
    refresh token is replaced and persisted only if the body's
    [refresh_token] is truthy, and is kept as it was otherwise.  On a network
    error, a status outside 2xx or a body that is not JSON it returns [false]
    and the tokens and the storage are left as they were. *)
Theorem refreshAuthToken_spec env w :
  let x := exec refreshAuthToken env w in
  (∃ b, x.2 = inr b)
  ∧ fetchLog x.1 = fetchLog w ++ [refresh_request (baseURL w) (refreshToken w)]
  ∧ (∀ r fields,
       fetches env 0%nat = Resolves r →
       200 ≤ f_status r ≤ 299 →
       f_body r = inr (JObj fields) →
       x.2 = inr true
       ∧ token x.1 = assoc "access_token" fields
       ∧ localStorage x.1 !! "admin_token"
         = Some (to_string (assoc "access_token" fields))
       ∧ (if truthy (assoc "refresh_token" fields)
          then refreshToken x.1 = assoc "refresh_token" fields
               ∧ localStorage x.1 !! "admin_refresh_token"
                 = Some (to_string (assoc "refresh_token" fields))
          else refreshToken x.1 = refreshToken w
               ∧ localStorage x.1 !! "admin_refresh_token"
                 = localStorage w !! "admin_refresh_token"))
  ∧ ((∃ e, fetches env 0%nat = Rejects e)
     ∨ (∃ r, fetches env 0%nat = Resolves r
             ∧ (¬ 200 ≤ f_status r ≤ 299 ∨ ∃ e, f_body r = inl e)) →
     x.2 = inr false
     ∧ token x.1 = token w
     ∧ refreshToken x.1 = refreshToken w
     ∧ localStorage x.1 = localStorage w).
Proof.
  intros x. subst x. split; [|split; [|split]].
  - rewrite refreshAuthToken_returns. eauto.
  - unfold refreshAuthToken. repeat (go; split_path). all: by go.
  - intros r fields Hfetch Hst Hbody.
    unfold refreshAuthToken. go. rewrite Hfetch. go.
    rewrite (in_2xx _ Hst). go. rewrite Hbody. go.
    unfold setItem.
    destruct (truthy (assoc "refresh_token" fields)); go.
    + rewrite lookup_insert_eq, lookup_insert_ne by done.
      by rewrite lookup_insert_eq.
    + rewrite lookup_insert_eq. by rewrite lookup_insert_ne.
  - intros [[e Hfetch]|(r & Hfetch & Hbad)];
      unfold refreshAuthToken; go; rewrite Hfetch; go; [done|].
    destruct ((200 <=? f_status r) && (f_status r <=? 299)) eqn:H2xx; go; [|done].
    destruct Hbad as [Hout|[e Hbody]].
    + exfalso. apply Hout. apply andb_prop in H2xx. lia.
    + rewrite Hbody. go. done.
Qed.


(** A [try] whose handler returns normally never throws, however the
    transfers inside it end. *)
Lemma catch_run_total {A} (r : Run A) (h : exn → Async A) env :
  (∀ e w, ∃ w' a, h e w = Settled w' (inr a)) →
  ∃ a, (run (catch_run r h) env).2 = inr a.
Proof.
  intros Hh. revert env.
  induction r as [w [e|a]|w rq k IH|w rq k IH|w k IH]; intros env; simpl.
  - destruct (Hh e w) as (w' & a & ->). by exists a.
  - by exists a.
  - apply IH.
  - apply IH.
  - apply IH.
Qed.

Lemma str_or_stock a : str_or a "Network error occurred" ≠ "".
Proof. unfold str_or. by destruct (String.eqb_spec a ""). Qed.

Lemma url_build_config target m hs payload options :
  url (build_config target m hs payload options) = target.
Proof. unfold build_config. by destruct (_ && _). Qed.

(** Every path through [request]: what leaves is the request, then (after
    a 401) a refresh call, then the retry, then (after another 401) a second
    refresh call, and nothing more; and a rejected transfer always ends in
    an envelope that says so. *)
Lemma request_transfers env w m endpoint payload options :
  let x := exec (request (JStr m) endpoint payload options) env w in
  (∃ sent, fetchLog x.1 = fetchLog w ++ sent
           ∧ url <$> sent `prefix_of` [baseURL w +:+ endpoint;
                                       baseURL w +:+ "/auth/refresh";
                                       baseURL w +:+ endpoint;
                                       baseURL w +:+ "/auth/refresh"])
  ∧ (∀ i e, (length (fetchLog w) + i < length (fetchLog x.1))%nat →
            fetches env i = Rejects e →
            ∃ envelope s, x.2 = inr envelope
                          ∧ success envelope = false
                          ∧ error envelope = Some s
                          ∧ s ≠ "").
Proof.
  unfold request, attempt, report, handleResponse, refreshAuthToken.
  repeat (go; split_path).
  all: go; split.
  all: try (intros idx rejection Hidx Hrejected;
            rewrite <- ?app_assoc, ?length_app in Hidx; simpl in Hidx).
  all: try (destruct idx as [|[|[|[|idx]]]]; try lia; congruence).
  all: try (eexists _, _; split; [reflexivity|]; split; [reflexivity|];
            split; [reflexivity|]; first [apply str_or_stock|done]).
  all: rewrite <- ?app_assoc; simpl; eexists; split; [reflexivity|].
  all: simpl; rewrite ?url_build_config.
  all: repeat apply prefix_cons; apply prefix_nil.
Qed.

Lemma request_enveloping m endpoint payload options :
  enveloping (request (JStr m) endpoint payload options).
Proof.
  intros env w x. subst x. split; [|split].
  - unfold exec.
    change (request (JStr m) endpoint payload options w)
      with (catch_run (attempt (outgoing w m endpoint payload options) w)
                      (report (JStr m) endpoint)).
    apply catch_run_total. intros e w0. unfold report. go. eauto.
  - intros e Hfetch. unfold request, attempt, report. go. by rewrite Hfetch.
  - apply request_transfers.
Qed.

(** C4. [request], called with a string for the method, and its wrappers
    [get], [post], [put], [patch] and [delete] never throw: every outcome is
    a returned envelope; when the request's own transfer fails the envelope
    is [{success: false, error}] with the failure's message (or "Network
    error occurred"), and when any transfer the call made fails (the
    request, a refresh, the retry) it has [success] false and a non-empty
    [error].  [upload] is different: when the transfer fails its promise
    rejects with [Error('Upload failed')]. *)
Theorem request_never_throws :
  (∀ m endpoint payload options, enveloping (request (JStr m) endpoint payload options))
  ∧ (∀ endpoint params, enveloping (get endpoint params))
  ∧ (∀ endpoint payload, enveloping (post endpoint payload))
  ∧ (∀ endpoint payload, enveloping (put endpoint payload))
  ∧ (∀ endpoint payload, enveloping (patch endpoint payload))
  ∧ (∀ endpoint, enveloping (delete endpoint))
  ∧ (∀ e, str_or (message e) "Network error occurred" ≠ "")
  ∧ (∀ env w endpoint formData,
       xhrs env 0%nat = XhrError →
       (exec (upload endpoint formData) env w).2 = inl (Error "Upload failed")).
Proof.
  split; [exact request_enveloping|].
  split; [intros endpoint params; exact (request_enveloping _ _ _ _)|].
  split; [intros endpoint payload; exact (request_enveloping _ _ _ _)|].
  split; [intros endpoint payload; exact (request_enveloping _ _ _ _)|].
  split; [intros endpoint payload; exact (request_enveloping _ _ _ _)|].
  split; [intros endpoint; exact (request_enveloping _ _ _ _)|].
  split.
  - intros e. unfold str_or. by destruct (String.eqb_spec (message e) "").
  - intros env w endpoint formData Hxhr. unfold upload. go. by rewrite Hxhr.
Qed.

(** The intended path of the 401 handling: the refresh succeeds and the
    retried response is 2xx.  One refresh call, one retry carrying the
    default headers rebuilt from the new access token, and the retry's
    envelope is returned. *)
Lemma request_refresh_then_retry env w m endpoint payload options r1 r2 fields r3 v :
  fetches env 0%nat = Resolves r1 →
  f_status r1 = 401 →
  truthy (refreshToken w) = true →
  fetches env 1%nat = Resolves r2 →
  200 ≤ f_status r2 ≤ 299 →
  f_body r2 = inr (JObj fields) →
  fetches env 2%nat = Resolves r3 →
  200 ≤ f_status r3 ≤ 299 →
  f_body r3 = inr v →
  let x := exec (request (JStr m) endpoint payload options) env w in
  x.2 = inr {| success := true; data := Some v; error := None; retry := false |}
  ∧ token x.1 = assoc "access_token" fields
  ∧ fetchLog x.1
    = fetchLog w
        ++ [outgoing w m endpoint payload options;
            refresh_request (baseURL w) (refreshToken w);
            with_headers (headers_for (assoc "access_token" fields))
                         (outgoing w m endpoint payload options)].
Proof.
  intros Hf1 H401 Hrt Hf2 H2xx Hbody2 Hf3 H3 Hbody3.
  unfold request, attempt, report. go. rewrite Hf1. unfold handleResponse. go.
  rewrite H401. simpl.
  destruct (f_body r1); go; rewrite Hrt; unfold refreshAuthToken; go.
  all: rewrite Hf2; go; rewrite (in_2xx _ H2xx); go; rewrite Hbody2; go.
  all: destruct (truthy (assoc "refresh_token" fields)); go.
  all: rewrite Hf3; go; rewrite Hbody3; go; rewrite (in_2xx _ H3); go.
  all: by rewrite <- !app_assoc.
Qed.

(** C1. When the retried request is answered 401 as well, [handleResponse]
    runs its refresh branch again: the call sends a second request to the
    refresh endpoint, whatever that one is answered. *)
Theorem request_refreshes_again env w m endpoint payload options r1 r2 fields r3 :
  fetches env 0%nat = Resolves r1 →
  f_status r1 = 401 →
  truthy (refreshToken w) = true →
  fetches env 1%nat = Resolves r2 →
  200 ≤ f_status r2 ≤ 299 →
  f_body r2 = inr (JObj fields) →
  fetches env 2%nat = Resolves r3 →
  f_status r3 = 401 →
  let x := exec (request (JStr m) endpoint payload options) env w in
  fetchLog x.1
  = fetchLog w
      ++ [outgoing w m endpoint payload options;
          refresh_request (baseURL w) (refreshToken w);
          with_headers (headers_for (assoc "access_token" fields))
                       (outgoing w m endpoint payload options);
          refresh_request (baseURL w)
            (if truthy (assoc "refresh_token" fields)
             then assoc "refresh_token" fields
             else refreshToken w)].
Proof.
  intros Hf1 H401 Hrt Hf2 H2xx Hbody2 Hf3 H3.
  unfold request, attempt, report. go. rewrite Hf1. unfold handleResponse. go.
  rewrite H401. simpl.
  destruct (f_body r1); go; rewrite Hrt; unfold refreshAuthToken; go.
  all: rewrite Hf2; go; rewrite (in_2xx _ H2xx); go; rewrite Hbody2; go.
  all: destruct (truthy (assoc "refresh_token" fields)) eqn:Hnew; go.
  all: rewrite Hf3; go; rewrite H3; simpl.
  all: destruct (f_body r3); go; rewrite ?Hnew, ?Hrt; go.
  all: destruct (fetches env 3%nat) as [r4|e4]; go.
  all: try (destruct ((200 <=? f_status r4) && (f_status r4 <=? 299)); go).
  all: try (destruct (f_body r4) as [e5|[]]; go).
  all: try (destruct (truthy (assoc "refresh_token" fields0)); go).
  all: by rewrite <- !app_assoc.
Qed.

(** C2. If that second refresh succeeds too, nothing is sent any more: the
    caller receives the internal mark [{success: false, retry: true}],
    without data or error, after two calls to the refresh endpoint. *)
Theorem request_retry_mark_escapes env w m endpoint payload options
    r1 r2 fields r3 r4 fields' :
  fetches env 0%nat = Resolves r1 →
  f_status r1 = 401 →
  truthy (refreshToken w) = true →
  fetches env 1%nat = Resolves r2 →
  200 ≤ f_status r2 ≤ 299 →
  f_body r2 = inr (JObj fields) →
  fetches env 2%nat = Resolves r3 →
  f_status r3 = 401 →
  fetches env 3%nat = Resolves r4 →
  200 ≤ f_status r4 ≤ 299 →
  f_body r4 = inr (JObj fields') →
  let x := exec (request (JStr m) endpoint payload options) env w in
  x.2 = inr {| success := false; data := None; error := None; retry := true |}
  ∧ ∃ first refresh1 second refresh2,
      fetchLog x.1 = fetchLog w ++ [first; refresh1; second; refresh2]
      ∧ url first = baseURL w +:+ endpoint
      ∧ url second = baseURL w +:+ endpoint
      ∧ url refresh1 = baseURL w +:+ "/auth/refresh"
      ∧ url refresh2 = baseURL w +:+ "/auth/refresh".
Proof.
  intros Hf1 H401 Hrt Hf2 H2xx Hbody2 Hf3 H3 Hf4 H4 Hbody4.
  unfold request, attempt, report. go. rewrite Hf1. unfold handleResponse. go.
  rewrite H401. simpl.
  destruct (f_body r1); go; rewrite Hrt; unfold refreshAuthToken; go.
  all: rewrite Hf2; go; rewrite (in_2xx _ H2xx); go; rewrite Hbody2; go.
  all: destruct (truthy (assoc "refresh_token" fields)) eqn:Hnew; go.
  all: rewrite Hf3; go; rewrite H3; simpl.
  all: destruct (f_body r3); go; rewrite ?Hnew, ?Hrt; go.
  all: rewrite Hf4; go; rewrite (in_2xx _ H4); go; rewrite Hbody4; go.
  all: destruct (truthy (assoc "refresh_token" fields')); go.
  all: split; [done|].
  all: eexists _, _, _, _; rewrite <- !app_assoc; simpl.
  all: split; [reflexivity|].
  all: unfold outgoing, build_config, refresh_request.
  all: by destruct (_ && _).
Qed.

(** ** What [batch] does *)

Lemma within_mono {A} n m (r : Run A) : within n r → (n ≤ m)%nat → within m r.
Proof.
  intros Hr. revert m.
  induction Hr as [n w p|n w rq k _ IH|n w rq k _ IH|n w k _ IH]; intros m Hle.
  - constructor.
  - destruct m as [|m]; [lia|]. constructor. intros. apply IH. lia.
  - destruct m as [|m]; [lia|]. constructor. intros. apply IH. lia.
  - destruct m as [|m]; [lia|]. constructor. intros. apply IH. lia.
Qed.

Lemma within_bind {A B} n k m (r : Run A) (f : A → Async B) :
  within n r → (∀ a w, within k (f a w)) → (n + k ≤ m)%nat →
  within m (bind_run r f).
Proof.
  intros Hr Hf. revert m.
  induction Hr as [n w [e|a]|n w rq c _ IH|n w rq c _ IH|n w c _ IH];
    intros m Hle; simpl.
  - constructor.
  - eapply within_mono; [apply Hf|lia].
  - destruct m as [|m]; [lia|]. constructor. intros. apply IH. lia.
  - destruct m as [|m]; [lia|]. constructor. intros. apply IH. lia.
  - destruct m as [|m]; [lia|]. constructor. intros. apply IH. lia.
Qed.

Lemma within_catch {A} n k m (r : Run A) (h : exn → Async A) :
  within n r → (∀ e w, within k (h e w)) → (n + k ≤ m)%nat →
  within m (catch_run r h).
Proof.
  intros Hr Hh. revert m.
  induction Hr as [n w [e|a]|n w rq c _ IH|n w rq c _ IH|n w c _ IH];
    intros m Hle; simpl.
  - eapply within_mono; [apply Hh|lia].
  - constructor.
  - destruct m as [|m]; [lia|]. constructor. intros. apply IH. lia.
  - destruct m as [|m]; [lia|]. constructor. intros. apply IH. lia.
  - destruct m as [|m]; [lia|]. constructor. intros. apply IH. lia.
Qed.

Lemma within_await {A} n (r : Run A) : within n r → within (S n) (await_run r).
Proof.
  induction 1 as [n w p|n w rq c _ IH|n w rq c _ IH|n w c _ IH]; simpl.
  - constructor. intros. constructor.
  - constructor. intros. apply IH.
  - constructor. intros. apply IH.
  - constructor. intros. apply IH.
Qed.

Lemma refreshAuthToken_within w : within 2 (refreshAuthToken w).
Proof.
  unfold refreshAuthToken. go. constructor. intros [r|e] w'; simpl.
  - destruct ((200 <=? f_status r) && (f_status r <=? 299)); go.
    + constructor. intros w''.
      destruct (f_body r) as [e|v]; simpl; [constructor|].
      destruct (get_prop v "access_token"); simpl; [constructor|].
      destruct (get_prop v "refresh_token") as [|v']; simpl; [constructor|].
      destruct (truthy v'); simpl; constructor.
    + constructor.
  - constructor.
Qed.

Lemma handleResponse_within response w : within 4 (handleResponse response w).
Proof.
  unfold handleResponse.
  generalize refreshAuthToken_within. generalize refreshAuthToken.
  intros refresh Hrefresh. go.
  destruct (json response) as [e|p]; go; [constructor|].
  constructor. intros w'.
  destruct (promise_catch p _) as [e|v]; simpl; [constructor|].
  destruct (negb (ok response)); [|constructor].
  destruct (status response =? 401).
  - go. destruct (truthy (refreshToken w')); [|constructor].
    apply (within_bind 3 0).
    + apply within_await, Hrefresh.
    + intros [] w''; constructor.
    + lia.
  - go. destruct (get_prop v "error"); simpl; constructor.
Qed.

Lemma attempt_within config w : within 12 (attempt config w).
Proof.
  unfold attempt.
  generalize handleResponse_within. generalize handleResponse.
  intros handle Hhandle. go.
  constructor. intros [r|e] w'; simpl; [|constructor].
  apply (within_bind 5 6).
  - apply within_await, Hhandle.
  - intros result w''. destruct (retry result); [|constructor].
    go. constructor. intros [r'|e'] w3; simpl; [|constructor].
    apply within_await, Hhandle.
  - lia.
Qed.

Lemma request_within meth endpoint payload options w :
  within 12 (request meth endpoint payload options w).
Proof.
  unfold request.
  generalize attempt_within. generalize attempt.
  intros try_block Htry. go.
  destruct (toUpperCase meth) as [e|m]; simpl; [constructor|].
  apply (within_catch 12 0).
  - apply Htry.
  - intros e w'. unfold report. go. constructor.
  - lia.
Qed.

Lemma resumes_trans {A} (r1 r2 r3 : Run A) :
  resumes r1 r2 → resumes r2 r3 → resumes r1 r3.
Proof.
  induction 1; intros; [done|..].
  - eapply resumes_fetch; eauto.
  - eapply resumes_xhr; eauto.
  - eapply resumes_tick; eauto.
Qed.

(** A step resumes one call and leaves every other call, and every
    position, as it was. *)
Lemma pool_step_tasks {A} (p p' : Pool A) :
  pool_step p p' →
  length p'.2 = length p.2
  ∧ ∀ i r, p.2 !! i = Some r → ∃ r', p'.2 !! i = Some r' ∧ resumes r r'.
Proof.
  destruct 1 as [w ts i w0 rq k o Hi|w ts i w0 rq k o Hi|w ts i w0 k Hi]; simpl.
  all: split; [apply length_insert|].
  all: intros j r Hj; destruct (decide (i = j)) as [->|Hne].
  all: try (rewrite list_lookup_insert_ne by done; eauto using @resumes_here).
  all: rewrite list_lookup_insert_eq by (by eapply lookup_lt_Some).
  all: rewrite Hi in Hj; injection Hj as <-.
  all: eexists; split; [done|].
  - eapply resumes_fetch, resumes_here.
  - eapply resumes_xhr, resumes_here.
  - eapply resumes_tick, resumes_here.
Qed.

Lemma pool_steps_tasks {A} (p p' : Pool A) :
  rtc pool_step p p' →
  length p'.2 = length p.2
  ∧ ∀ i r, p.2 !! i = Some r → ∃ r', p'.2 !! i = Some r' ∧ resumes r r'.
Proof.
  induction 1 as [p|p q p' Hstep _ [IHlen IH]].
  - split; [done|]. eauto using @resumes_here.
  - destruct (pool_step_tasks _ _ Hstep) as [Hlen Htasks].
    split; [congruence|].
    intros i r Hi. destruct (Htasks i r Hi) as (r1 & Hq & Hr1).
    destruct (IH i r1 Hq) as (r2 & Hp' & Hr2).
    eauto using @resumes_trans.
Qed.





Lemma start_all_tasks requests w :
  length (start_all requests w).2 = length requests
  ∧ Forall2 within (replicate (length requests) 12%nat) (start_all requests w).2
  ∧ ∀ i req, requests !! i = Some req →
      ∃ w0, (start_all requests w).2 !! i
            = Some (request (d_method req) (d_endpoint req) (d_data req) no_options w0).
Proof.
  revert w. induction requests as [|req rest IH]; intros w; simpl.
  - repeat split; [constructor|]. intros i req. by rewrite lookup_nil.
  - specialize (IH (world_of (request (d_method req) (d_endpoint req) (d_data req)
                                      no_options w))).
    destruct (start_all rest _) as [w' rs]. simpl in *.
    destruct IH as (Hlen & Hwithin & Htasks).
    split; [by rewrite Hlen|]. split.
    + constructor; [apply request_within|done].
    + intros [|i] req'; simpl; [|by apply Htasks].
      intros [= <-]. eauto.
Qed.


(** ** The rest of the client, and the dashboard's use of it *)

(** The sequential runner composes: awaiting a call changes nothing it
    returns, and a sequence continues from what the first part left of the
    script. *)
Lemma run_await {A} (r : Run A) env :
  run (await_run r) env = run r env ∧ rest (await_run r) env = rest r env.
Proof.
  revert env. induction r as [w p|w rq k IH|w rq k IH|w k IH]; intros env; simpl;
    [done|apply IH..].
Qed.

Lemma run_bind {A B} (r : Run A) (f : A → Async B) env :
  run (bind_run r f) env
  = match run r env with
    | (w, inr a) => run (f a w) (rest r env)
    | (w, inl e) => (w, inl e)
    end
  ∧ rest (bind_run r f) env
    = match run r env with
      | (w, inr a) => rest (f a w) (rest r env)
      | (_, inl _) => rest r env
      end.
Proof.
  revert env. induction r as [w [e|a]|w rq k IH|w rq k IH|w k IH]; intros env; simpl;
    [done|done|apply IH..].
Qed.

(** X1. What [setToken] stores survives a reload: a client constructed
    from the storage it left holds the access token, as the string that was
    stored, and the refresh token likewise when one was given (a truthy
    one); without one, the refresh token in the client and the stored one
    are left as they were. *)
Theorem setToken_survives_reload env w tok rt href :
  let x := exec (setToken tok rt) env w in
  let reloaded := constructor (localStorage x.1) href in
  token x.1 = tok
  ∧ refreshToken x.1 = (if truthy rt then rt else refreshToken w)
  ∧ token reloaded = JStr (to_string tok)
  ∧ refreshToken reloaded
    = (if truthy rt then JStr (to_string rt)
       else getItem "admin_refresh_token" (localStorage w)).
Proof.
  intros x reloaded. subst x reloaded. go.
  unfold constructor, getItem, setItem.
  destruct (truthy rt); go.
  - rewrite lookup_insert_ne by done. by rewrite !lookup_insert_eq.
  - rewrite lookup_insert_eq. by rewrite lookup_insert_ne.
Qed.

(** X2. [clearAuth] drops both tokens from the client and from storage, so
    that a client constructed afterwards holds none; it touches no other
    stored key; and the next request leaves with the default headers and no
    [Authorization]. *)
Theorem clearAuth_drops_credentials env w href m endpoint payload :
  let x := exec clearAuth env w in
  let reloaded := constructor (localStorage x.1) href in
  token x.1 = JNull
  ∧ refreshToken x.1 = JNull
  ∧ token reloaded = JNull
  ∧ refreshToken reloaded = JNull
  ∧ (∀ key, key ≠ "admin_token" → key ≠ "admin_refresh_token" →
            localStorage x.1 !! key = localStorage w !! key)
  ∧ ∃ w' rq k,
      (clearAuth >> request (JStr m) endpoint payload no_options) w
      = AwaitFetch (log_fetch rq w') rq k
      ∧ headers rq !! "Content-Type" = Some "application/json"
      ∧ headers rq !! "Authorization" = None.
Proof.
  intros x reloaded. subst x reloaded. go.
  destruct (removeItem_both (localStorage w)) as [Hgone1 Hgone2].
  unfold constructor, getItem. simpl. rewrite Hgone1, Hgone2.
  repeat split.
  - intros key Hk1 Hk2. unfold removeItem. by rewrite !lookup_delete_ne.
  - unfold request, attempt. go. eexists _, _, _. split; [reflexivity|].
    unfold build_config, spread. simpl.
    destruct (truthy payload && _); simpl; apply (headers_for_lookup JNull).
Qed.

(** X3. After [setToken(tok, rt)] the next request goes to the base path
    followed by the endpoint and carries [Authorization: Bearer tok] exactly
    when [tok] is truthy. *)
Theorem setToken_authorizes_next_request w tok rt m endpoint payload :
  ∃ w' rq k,
    (setToken tok rt >> request (JStr m) endpoint payload no_options) w
    = AwaitFetch (log_fetch rq w') rq k
    ∧ url rq = baseURL w +:+ endpoint
    ∧ headers rq !! "Authorization"
      = if truthy tok then Some ("Bearer " +:+ to_string tok) else None.
Proof.
  unfold request, attempt. go.
  destruct (truthy rt); go; eexists _, _, _; (split; [reflexivity|]).
  all: rewrite url_build_config; split; [done|].
  all: unfold build_config, spread; simpl.
  all: destruct (truthy payload && _); simpl; apply (headers_for_lookup tok).
Qed.

(** X4. What the five wrappers send first.  [get] and [delete] never carry
    a body; [get] appends [?query] to the endpoint only when the query
    string is not empty; [post], [put] and [patch] carry
    [JSON.stringify(data)] exactly when [data] is truthy, so a call without
    data (or with [0], [""], [false], [null]) leaves without a body.  All
    carry the default headers for the stored token. *)
Theorem wrappers_send w endpoint params payload :
  let query := URLSearchParams_toString params in
  let hs := headers_for (token w) in
  let text := if truthy payload then Some (JSON_stringify payload) else None in
  sends (get endpoint params) w
        (mkRequest (baseURL w +:+ (if String.eqb query "" then endpoint
                                   else endpoint +:+ "?" +:+ query))
                   "GET" hs None)
  ∧ sends (post endpoint payload) w (mkRequest (baseURL w +:+ endpoint) "POST" hs text)
  ∧ sends (put endpoint payload) w (mkRequest (baseURL w +:+ endpoint) "PUT" hs text)
  ∧ sends (patch endpoint payload) w (mkRequest (baseURL w +:+ endpoint) "PATCH" hs text)
  ∧ sends (delete endpoint) w (mkRequest (baseURL w +:+ endpoint) "DELETE" hs None).
Proof.
  unfold sends, get, post, put, patch, delete, request, attempt.
  go. unfold build_config, spread. simpl.
  destruct (String.eqb (URLSearchParams_toString params) ""); simpl.
  all: destruct (truthy payload); simpl; eauto 10.
Qed.

(** X5. One call to [request] makes at least one and at most four
    transfers, all of them with [fetch]: the request it built, then at most
    a refresh call, the retry and a second refresh call, in this order. *)
Theorem request_sends_at_most_four env w m endpoint payload options :
  let x := exec (request (JStr m) endpoint payload options) env w in
  ∃ sent, fetchLog x.1 = fetchLog w ++ outgoing w m endpoint payload options :: sent
          ∧ (length sent ≤ 3)%nat
          ∧ url <$> sent `prefix_of` [baseURL w +:+ "/auth/refresh";
                                      baseURL w +:+ endpoint;
                                      baseURL w +:+ "/auth/refresh"]
          ∧ xhrLog x.1 = xhrLog w.
Proof.
  unfold request, attempt, report, handleResponse, refreshAuthToken.
  repeat (go; split_path).
  all: go; rewrite <- ?app_assoc; simpl; eexists; (split; [reflexivity|]).
  all: simpl; rewrite ?url_build_config.
  all: split; [lia|]; split; [|done].
  all: repeat apply prefix_cons; apply prefix_nil.
Qed.

(** X6. Unless its first response is a 401, a call to [request] leaves the
    session alone: the tokens, the storage and the location are as before,
    and the request it built is the only transfer (whether that one failed,
    succeeded or was answered with another error status). *)
Theorem request_non401_keeps_credentials env w m endpoint payload options :
  (∀ r, fetches env 0%nat = Resolves r → f_status r ≠ 401) →
  let x := exec (request (JStr m) endpoint payload options) env w in
  token x.1 = token w
  ∧ refreshToken x.1 = refreshToken w
  ∧ localStorage x.1 = localStorage w
  ∧ location_href x.1 = location_href w
  ∧ fetchLog x.1 = fetchLog w ++ [outgoing w m endpoint payload options].
Proof.
  intros Hst.
  unfold request, attempt, report, handleResponse. go.
  destruct (fetches env 0%nat) as [r|e]; go; [|done].
  rewrite (not_401 _ (Hst r eq_refl)).
  repeat (split_path; go). all: done.
Qed.

(** X7. A 401 has three outcomes in [handleResponse] and no fourth one.
    When [response.json()] itself throws (an upload whose text is not
    JSON), that exception is thrown and nothing is sent or changed.
    Otherwise either the retry mark is returned: then a refresh token was
    stored, the refresh attempt succeeded, the client still holds a refresh
    token and the location is untouched.  Or the "Authentication required"
    envelope is returned and the session is over.  The response of a
    [fetch] always has a promise for its body, so [request] only meets the
    last two. *)
Theorem handleResponse_401_outcomes env w (response : Response) :
  ok response = false →
  status response = 401 →
  let x := exec (handleResponse response) env w in
  (∃ e, json response = inl e ∧ x = (w, inl e))
  ∨ ((∃ p, json response = inr p)
     ∧ x.2 = inr retry_envelope
     ∧ truthy (refreshToken w) = true
     ∧ refresh_succeeds (fetches env 0%nat) = true
     ∧ truthy (refreshToken x.1) = true
     ∧ location_href x.1 = location_href w)
  ∨ ((∃ p, json response = inr p)
     ∧ x.2 = inr auth_required
     ∧ signed_out x.1).
Proof.
  intros Hok Hst.
  destruct (json response) as [e|p] eqn:Hjson.
  { left. exists e. split; [done|]. unfold handleResponse. go. by rewrite Hjson. }
  right.
  destruct (truthy (refreshToken w)) eqn:Hrt;
    [|right; destruct (handleResponse_signs_out env w response p Hok Hst Hjson
                         (or_introl Hrt)) as (? & ? & _); by eauto].
  destruct (refresh_succeeds (fetches env 0%nat)) eqn:Hrefresh;
    [|right; destruct (handleResponse_signs_out env w response p Hok Hst Hjson
                         (or_intror Hrefresh)) as (? & ? & _); by eauto].
  left. split; [by eauto|].
  unfold handleResponse. go. rewrite Hjson. go. rewrite Hok, Hst. simpl.
  assert (Hcaught : ∃ v, promise_catch p (λ _ : exn, JObj []) = inr v).
  { destruct p; simpl; eauto. }
  destruct Hcaught as [v ->]. go. rewrite Hrt.
  unfold refresh_succeeds in Hrefresh. unfold refreshAuthToken. go.
  destruct (fetches env 0%nat) as [r2|e2]; [|done]. simpl in Hrefresh. go.
  destruct ((200 <=? f_status r2) && (f_status r2 <=? 299)); [|done]. go.
  destruct (f_body r2) as [e3|[]]; try done; go.
  all: try destruct (truthy (assoc _ _)) eqn:Hnew; go; by repeat split.
Qed.

(** X8. After a 401 and a successful refresh the request is sent again as
    it was (same URL, method and body), whatever comes back; its headers are
    the defaults rebuilt from the new access token, so headers the caller
    passed in [options] are not sent the second time.  At most one more
    transfer follows the retry. *)
Theorem request_retry_keeps_request env w m endpoint payload options r1 r2 fields :
  fetches env 0%nat = Resolves r1 →
  f_status r1 = 401 →
  truthy (refreshToken w) = true →
  fetches env 1%nat = Resolves r2 →
  200 ≤ f_status r2 ≤ 299 →
  f_body r2 = inr (JObj fields) →
  let x := exec (request (JStr m) endpoint payload options) env w in
  let first := outgoing w m endpoint payload options in
  ∃ again more,
    fetchLog x.1
    = fetchLog w ++ [first; refresh_request (baseURL w) (refreshToken w); again] ++ more
    ∧ url again = url first
    ∧ method again = method first
    ∧ body again = body first
    ∧ headers again = headers_for (assoc "access_token" fields)
    ∧ (length more ≤ 1)%nat.
Proof.
  intros Hf1 H401 Hrt Hf2 H2xx Hbody2.
  unfold request, attempt, report. go. rewrite Hf1.
  unfold handleResponse. go. rewrite H401. simpl.
  destruct (f_body r1); go; rewrite Hrt; unfold refreshAuthToken; go.
  all: rewrite Hf2; go; rewrite (in_2xx _ H2xx); go; rewrite Hbody2; go.
  all: destruct (truthy (assoc "refresh_token" fields)); go.
  all: repeat (split_path; go).
  all: rewrite <- ?app_assoc; simpl.
  all: eexists _, _; (split; [reflexivity|]); simpl; repeat split; lia.
Qed.

(** X9. [login] posts the e-mail and the password as a JSON object to
    [/auth/admin/login] and hands the 2xx answer to its caller in the
    envelope; it stores nothing itself: the client's tokens and the storage
    are as they were before the call. *)
Theorem login_leaves_credentials env w email password r v :
  fetches env 0%nat = Resolves r →
  200 ≤ f_status r ≤ 299 →
  f_body r = inr v →
  let x := exec (login email password) env w in
  x.2 = inr {| success := true; data := Some v; error := None; retry := false |}
  ∧ token x.1 = token w
  ∧ refreshToken x.1 = refreshToken w
  ∧ localStorage x.1 = localStorage w
  ∧ ∃ rq, fetchLog x.1 = fetchLog w ++ [rq]
          ∧ url rq = baseURL w +:+ "/auth/admin/login"
          ∧ method rq = "POST"
          ∧ body rq = Some (JSON_stringify
                              (JObj [("email", email); ("password", password)])).
Proof.
  intros Hfetch Hst Hbody.
  unfold login, post, request, attempt, report. go. rewrite Hfetch.
  unfold handleResponse. go. rewrite Hbody. go. rewrite (in_2xx _ Hst). simpl.
  repeat split. eexists. split; [reflexivity|].
  by rewrite url_build_config.
Qed.

(** X10. [logout] ends the session locally whatever the server says: it
    returns the envelope of its POST to [/auth/logout] (it never throws),
    and afterwards no token is left in the client or in storage, also when
    the request failed or a refresh on the way had just stored new tokens. *)
Theorem logout_always_clears env w :
  let x := exec logout env w in
  x.2 = (exec (post "/auth/logout" JUndefined) env w).2
  ∧ (∃ envelope, x.2 = inr envelope)
  ∧ token x.1 = JNull
  ∧ refreshToken x.1 = JNull
  ∧ localStorage x.1 !! "admin_token" = None
  ∧ localStorage x.1 !! "admin_refresh_token" = None.
Proof.
  intros x. subst x. unfold logout, exec, bind, await.
  destruct (request_enveloping "POST" "/auth/logout" JUndefined no_options env w)
    as [[envelope Henv] _].
  unfold exec in Henv. fold (post "/auth/logout" JUndefined) in Henv.
  rewrite (proj1 (run_bind _ _ _)), (proj1 (run_await _ _)).
  destruct (run (post "/auth/logout" JUndefined w) env) as [w1 p]. simpl in Henv.
  subst p. go.
  destruct (removeItem_both (localStorage w1)). eauto 10.
Qed.

(** Every path through [upload]: one XHR, and at most the refresh call. *)
Lemma upload_transfers env w endpoint formData :
  let x := exec (upload endpoint formData) env w in
  xhrLog x.1
  = xhrLog w ++ [mkXhr (baseURL w +:+ endpoint)
                       (if truthy (token w)
                        then {[ "Authorization" := "Bearer " +:+ to_string (token w) ]}
                        else ∅)
                       formData]
  ∧ (fetchLog x.1 = fetchLog w
     ∨ fetchLog x.1 = fetchLog w ++ [refresh_request (baseURL w) (refreshToken w)]).
Proof.
  unfold upload, handleResponse, refreshAuthToken, of_xhr. go.
  destruct (xhrs env 0%nat) as [st st_text text|]; go; [|by split; [|left]].
  destruct (JSON_parse text) as [e|v]; go; [by split; [|left]|].
  repeat (go; split_path).
  all: split; [reflexivity|]; first [left; reflexivity | right; reflexivity].
Qed.

(** X11. [upload] sends the form exactly once, by XHR, to the base path
    followed by the endpoint; the only header it sets is [Authorization],
    and only when a token is stored ([Content-Type] is left to the
    browser).  Whatever happens, the form is not sent a second time: the
    only other transfer there can be is one refresh call. *)
Theorem upload_sends_once env w endpoint formData :
  let x := exec (upload endpoint formData) env w in
  (∃ rq, xhrLog x.1 = xhrLog w ++ [rq]
         ∧ x_url rq = baseURL w +:+ endpoint
         ∧ x_form rq = formData
         ∧ x_headers rq !! "Content-Type" = None
         ∧ x_headers rq !! "Authorization"
           = if truthy (token w) then Some ("Bearer " +:+ to_string (token w)) else None)
  ∧ (fetchLog x.1 = fetchLog w
     ∨ fetchLog x.1 = fetchLog w ++ [refresh_request (baseURL w) (refreshToken w)]).
Proof.
  intros x. subst x.
  destruct (upload_transfers env w endpoint formData) as [Hxhr Hfetch].
  split; [|exact Hfetch].
  eexists. split; [exact Hxhr|]. simpl.
  destruct (truthy (token w)); by simplify_map_eq.
Qed.

(** X12. [importData(type, file)] is an upload to [/admin/import] of a form
    holding the file first and the type second; that form is the one XHR it
    sends. *)
Theorem importData_sends_form env w type file :
  let x := exec (importData type file) env w in
  x = exec (upload "/admin/import" [("file", file); ("type", type)]) env w
  ∧ ∃ rq, xhrLog x.1 = xhrLog w ++ [rq]
          ∧ x_url rq = baseURL w +:+ "/admin/import"
          ∧ x_form rq = [("file", file); ("type", type)].
Proof.
  intros x. subst x. unfold importData. split; [reflexivity|].
  destruct (upload_transfers env w "/admin/import" [("file", file); ("type", type)])
    as [Hxhr _].
  eexists. split; [exact Hxhr|]. done.
Qed.

(** X13. An upload answered 2xx with JSON text resolves with
    [{success: true, data}], [data] being the parsed text; no [fetch] is
    made and the session is untouched. *)
Theorem upload_success env w endpoint formData st st_text responseText v :
  xhrs env 0%nat = XhrLoad st st_text responseText →
  200 ≤ st < 300 →
  JSON_parse responseText = inr v →
  let x := exec (upload endpoint formData) env w in
  x.2 = inr {| success := true; data := Some v; error := None; retry := false |}
  ∧ token x.1 = token w
  ∧ refreshToken x.1 = refreshToken w
  ∧ localStorage x.1 = localStorage w
  ∧ fetchLog x.1 = fetchLog w.
Proof.
  intros Hxhr Hst Hparse.
  unfold upload. go. rewrite Hxhr. simpl.
  unfold handleResponse, of_xhr. go. rewrite Hparse. go.
  assert (Hok : (200 <=? st) && (st <? 300) = true) by (apply andb_true_intro; lia).
  rewrite Hok. done.
Qed.

(** X14. An upload answered 401 while the refresh succeeds is not sent
    again: the new access token is stored and the promise resolves with the
    bare retry mark [{success: false, retry: true}], which nobody acts on. *)
Theorem upload_401_not_resent env w endpoint formData st_text responseText v r fields :
  xhrs env 0%nat = XhrLoad 401 st_text responseText →
  JSON_parse responseText = inr v →
  truthy (refreshToken w) = true →
  fetches env 0%nat = Resolves r →
  200 ≤ f_status r ≤ 299 →
  f_body r = inr (JObj fields) →
  let x := exec (upload endpoint formData) env w in
  x.2 = inr {| success := false; data := None; error := None; retry := true |}
  ∧ token x.1 = assoc "access_token" fields
  ∧ length (xhrLog x.1) = S (length (xhrLog w)).
Proof.
  intros Hxhr Hparse Hrt Hfetch Hst Hbody.
  pose proof (upload_transfers env w endpoint formData) as [Hlog _].
  split; [|split]; [| |by rewrite Hlog, length_app; simpl; lia].
  all: unfold upload; go; rewrite Hxhr; simpl.
  all: unfold handleResponse, of_xhr; go; rewrite Hparse; go.
  all: rewrite Hrt; unfold refreshAuthToken; go.
  all: rewrite Hfetch; go; rewrite (in_2xx _ Hst); go; rewrite Hbody; go.
  all: by destruct (truthy (assoc "refresh_token" fields)).
Qed.

(** X15. An upload answered with a status that is neither 2xx nor 401 and
    a JSON object rejects: the promise carries
    [Error(data.error || `HTTP <status>: <statusText>`)], in particular the
    server's message when [error] is a non-empty string, and the session is
    untouched. *)
Theorem upload_http_error_rejects env w endpoint formData st st_text responseText fields :
  xhrs env 0%nat = XhrLoad st st_text responseText →
  ¬ 200 ≤ st < 300 →
  st ≠ 401 →
  JSON_parse responseText = inr (JObj fields) →
  let x := exec (upload endpoint formData) env w in
  (x.2 = inl (Error (to_string (js_or (assoc "error" fields)
                                      (JStr ("HTTP " +:+ pretty st +:+ ": " +:+ st_text))))))
  ∧ (∀ s, assoc "error" fields = JStr s → s ≠ "" → x.2 = inl (Error s))
  ∧ token x.1 = token w
  ∧ refreshToken x.1 = refreshToken w.
Proof.
  intros Hxhr Hout H401 Hparse.
  assert (Hok : (200 <=? st) && (st <? 300) = false) by (apply andb_false_iff; lia).
  assert (Hmain : (exec (upload endpoint formData) env w).2
                  = inl (Error (to_string (js_or (assoc "error" fields)
                           (JStr ("HTTP " +:+ pretty st +:+ ": " +:+ st_text)))))
                  ∧ token (exec (upload endpoint formData) env w).1 = token w
                  ∧ refreshToken (exec (upload endpoint formData) env w).1
                    = refreshToken w).
  { unfold upload. go. rewrite Hxhr. simpl.
    unfold handleResponse, of_xhr. go. rewrite Hparse. go.
    rewrite Hok, (not_401 _ H401). go. done. }
  destruct Hmain as (Hres & Htok & Hrt). simpl.
  split; [exact Hres|]. split; [|by split].
  intros s Hs Hne. rewrite Hres, Hs. unfold js_or. simpl.
  by destruct (String.eqb_spec s "").
Qed.

Lemma resumes_settled {A} w (p : result A) r : resumes (Settled w p) r → r = Settled w p.
Proof. by inversion 1. Qed.

(** X16. [batch([])] returns the empty list and changes nothing, and it can
    do nothing else. *)
Theorem batch_empty w :
  batch [] w w [] ∧ ∀ w' entries, batch [] w w' entries → w' = w ∧ entries = [].
Proof.
  split.
  - by apply (batch_settled [] w w [] []).
  - intros w' entries Hbatch. destruct Hbatch as [w' ts results Hsteps Hsettled].
    simpl in Hsteps.
    assert (Hstay : (w', ts) = (w, @nil (Run Envelope))).
    { remember (w, @nil (Run Envelope)) as p0 eqn:Hp0.
      remember (w', ts) as p1 eqn:Hp1.
      destruct Hsteps as [|p0 q p1 Hstep _]; [congruence|].
      subst p0. inversion Hstep; subst; by rewrite lookup_nil in *. }
    injection Hstay as -> ->. simpl in Hsettled. by injection Hsettled as <-.
Qed.

(** X17. The one way a member of a batch rejects: its [method] is not a
    string, so [method.toUpperCase()] throws before anything is sent.  In
    every run of the batch the entry of that member has [success] false,
    [data] null and the exception's message as [error]. *)
Theorem batch_reports_rejected_member requests w w' entries i req e :
  batch requests w w' entries →
  requests !! i = Some req →
  toUpperCase (d_method req) = inl e →
  (∀ w0, request (d_method req) (d_endpoint req) (d_data req) no_options w0
         = Settled w0 (inl e))
  ∧ entries !! i
    = Some {| b_request := Some req; b_success := false; b_data := JNull;
              b_error := JStr (message e) |}.
Proof.
  intros Hbatch Hreq Hmeth.
  assert (Hsettles : ∀ w0, request (d_method req) (d_endpoint req) (d_data req)
                                   no_options w0 = Settled w0 (inl e)).
  { intros w0. unfold request. go. by rewrite Hmeth. }
  split; [exact Hsettles|].
  destruct Hbatch as [w' ts results Hsteps Hsettled].
  destruct (start_all_tasks requests w) as (_ & _ & Htasks).
  destruct (Htasks i req Hreq) as (w0 & Hstart).
  destruct (pool_steps_tasks _ _ Hsteps) as [_ Hresumed]. simpl in Hresumed.
  destruct (Hresumed _ _ Hstart) as (r' & Hr' & Hres).
  rewrite Hsettles in Hres. apply resumes_settled in Hres. subst r'.
  apply mapM_Some in Hsettled.
  destruct (Forall2_lookup_l _ _ _ _ _ Hsettled Hr') as (p & Hp & Hset).
  simpl in Hset. injection Hset as <-.
  rewrite list_lookup_imap, Hp. simpl. unfold entry. by rewrite Hreq.
Qed.

(** X18. [batch] sends every member's request before it awaits anything:
    when [requests.map] returns, the requests of all the members (given with
    string methods) have left, in the order of the list, each built from the
    token the client held when [batch] was called; the session is untouched
    and no member has settled. *)
Theorem batch_sends_all_first (specs : list (string * string * jsval)) w :
  let requests := (λ s, mkDescriptor (JStr s.1.1) s.1.2 s.2) <$> specs in
  let started := start_all requests w in
  fetchLog started.1
  = fetchLog w ++ ((λ s, outgoing w s.1.1 s.1.2 s.2 no_options) <$> specs)
  ∧ token started.1 = token w
  ∧ refreshToken started.1 = refreshToken w
  ∧ localStorage started.1 = localStorage w
  ∧ Forall (λ t, settlement t = None) started.2.
Proof.
  simpl. revert w. induction specs as [|[[m endpoint] payload] specs IH]; intros w.
  - simpl. rewrite app_nil_r. by repeat split.
  - simpl.
    assert (Hfirst : ∃ k, request (JStr m) endpoint payload no_options w
                          = AwaitFetch (log_fetch (outgoing w m endpoint payload no_options) w)
                                       (outgoing w m endpoint payload no_options) k).
    { unfold request, attempt. go. eauto. }
    destruct Hfirst as [k ->]. simpl.
    specialize (IH (log_fetch (outgoing w m endpoint payload no_options) w)).
    destruct (start_all _ (log_fetch _ w)) as [w1 ts]. simpl in *.
    destruct IH as (Hlog & Htok & Hrt & Hstore & Hall).
    rewrite Hlog, <- app_assoc. repeat split; try done.
    constructor; [done|exact Hall].
Qed.

(** X19. [checkSystemStatus] never throws: whatever the try block throws,
    the catch block returns. *)
Theorem checkSystemStatus_never_throws env w dom :
  ∃ dom', (exec (checkSystemStatus dom) env w).2 = inr dom'.
Proof.
  unfold exec, checkSystemStatus, try_catch.
  apply catch_run_total. intros e w0. go. eauto.
Qed.

(** X20. When the backend cannot be reached, or answers the health request
    with an error status other than 401, the status indicator is left as it
    was: [get] reports the failure in its envelope, so the catch block that
    would show "offline" is not entered, and the one line on the console is
    the client's own. *)
Theorem checkSystemStatus_failure_keeps_indicator env w dom :
  (∀ r, fetches env 0%nat = Resolves r →
        ¬ 200 ≤ f_status r ≤ 299 ∧ f_status r ≠ 401) →
  let x := exec (checkSystemStatus dom) env w in
  x.2 = inr dom
  ∧ ∃ line e, console x.1 = console w ++ [(line, e)]
              ∧ line ≠ "Error checking system status:".
Proof.
  intros Hst.
  unfold checkSystemStatus, get, request, attempt, report, handleResponse. go.
  destruct (fetches env 0%nat) as [r|e]; go; [|by eauto].
  destruct (Hst r eq_refl) as [Hout H401].
  rewrite (out_2xx _ Hout), (not_401 _ H401). simpl.
  repeat (split_path; go). all: by eauto.
Qed.

(** X21. When the health request is answered 2xx: a JSON object sets the
    indicator from its [overall_healthy]; a body that is not JSON is read as
    [{}] and shows "offline", silently; the JSON value [null] makes
    [response.data.overall_healthy] throw, which the catch block logs before
    it shows "offline". *)
Theorem checkSystemStatus_shows_health env w dom r :
  fetches env 0%nat = Resolves r →
  200 ≤ f_status r ≤ 299 →
  let x := exec (checkSystemStatus dom) env w in
  (∀ fields, f_body r = inr (JObj fields) →
             x.2 = inr (updateSystemStatus (assoc "overall_healthy" fields) dom)
             ∧ console x.1 = console w)
  ∧ (∀ e, f_body r = inl e →
          x.2 = inr (updateSystemStatus (JBool false) dom)
          ∧ console x.1 = console w)
  ∧ (f_body r = inr JNull →
     x.2 = inr (updateSystemStatus (JBool false) dom)
     ∧ console x.1
       = console w
           ++ [("Error checking system status:",
                TypeError "Cannot read properties of null (reading 'overall_healthy')")]).
Proof.
  intros Hfetch Hst.
  unfold checkSystemStatus, get, request, attempt, report, handleResponse. go.
  rewrite Hfetch. go. rewrite (in_2xx _ Hst). simpl.
  split; [|split].
  - intros fields Hbody. rewrite Hbody. by go.
  - intros e Hbody. rewrite Hbody. go. split; [|done]. by destruct dom as [[? []]|].
  - intros Hbody. rewrite Hbody. by go.
Qed.

(** [data.group?.field || 0] on an object: it never throws, and a group
    that is missing (or falsy) counts as 0. *)
Lemma stat_object fields group field :
  ∃ v, stat (JObj fields) group field = inr v
       ∧ (truthy (assoc group fields) = false → v = JNum 0).
Proof.
  unfold stat. simpl.
  destruct (assoc group fields) as [| |b|n|s|items|inner]; simpl.
  all: eexists; split; [reflexivity|]; intros Hfalsy; first [reflexivity|done].
Qed.

Lemma updateStatsCards_returns fields dom :
  (updateStatsCards (JObj fields) dom).2 = inr tt.
Proof.
  destruct (stat_object fields "users" "total") as (users & Hu & _).
  destruct (stat_object fields "subscriptions" "total_revenue") as (revenue & Hr & _).
  destruct (stat_object fields "tasks" "completed") as (tasks & Ht & _).
  destruct (stat_object fields "credits" "total_used") as (credits & Hc & _).
  unfold updateStatsCards, card. rewrite Hu, Hr, Ht, Hc.
  by destruct dom as [[] [] [] []].
Qed.

(** X22. Given an object, [updateStatsCards] never throws and writes every
    counter the page has: the formatted figure, with a dollar sign before
    the revenue, and a counter the page lacks stays absent.  A figure whose
    group is missing is shown as 0; so the empty object shows four zeros. *)
Theorem updateStatsCards_object fields dom :
  ∃ users revenue tasks credits,
    stat (JObj fields) "users" "total" = inr users
    ∧ stat (JObj fields) "subscriptions" "total_revenue" = inr revenue
    ∧ stat (JObj fields) "tasks" "completed" = inr tasks
    ∧ stat (JObj fields) "credits" "total_used" = inr credits
    ∧ updateStatsCards (JObj fields) dom
      = ({| totalUsers := (λ _, formatNumber users) <$> totalUsers dom;
            totalRevenue := (λ _, "$" +:+ formatNumber revenue) <$> totalRevenue dom;
            totalTasks := (λ _, formatNumber tasks) <$> totalTasks dom;
            totalCredits := (λ _, formatNumber credits) <$> totalCredits dom |},
         inr tt)
    ∧ (fields = [] → users = JNum 0 ∧ revenue = JNum 0 ∧ tasks = JNum 0
                     ∧ credits = JNum 0).
Proof.
  destruct (stat_object fields "users" "total") as (users & Hu & Hu0).
  destruct (stat_object fields "subscriptions" "total_revenue") as (revenue & Hr & Hr0).
  destruct (stat_object fields "tasks" "completed") as (tasks & Ht & Ht0).
  destruct (stat_object fields "credits" "total_used") as (credits & Hc & Hc0).
  exists users, revenue, tasks, credits.
  repeat (split; [assumption|]). split.
  - unfold updateStatsCards, card. rewrite Hu, Hr, Ht, Hc.
    by destruct dom as [[] [] [] []].
  - intros ->. by rewrite Hu0, Hr0, Ht0, Hc0.
Qed.

(** X23. Given [null] or [undefined], [updateStatsCards] throws a TypeError
    as soon as the page has one of the four counters, before it has written
    anything; on a page with none of them it returns without reading the
    data. *)
Theorem updateStatsCards_null_throws stats dom :
  stats = JNull ∨ stats = JUndefined →
  (totalUsers dom = None ∧ totalRevenue dom = None ∧ totalTasks dom = None
   ∧ totalCredits dom = None
   ∧ updateStatsCards stats dom = (dom, inr tt))
  ∨ ((∃ text, text ∈ [totalUsers dom; totalRevenue dom; totalTasks dom;
                      totalCredits dom] ∧ text ≠ None)
     ∧ ∃ msg, updateStatsCards stats dom = (dom, inl (TypeError msg))).
Proof using Type.
  unfold updateStatsCards, card, stat.
  destruct dom as [[u|] [r|] [t|] [c|]]; intros [-> | ->]; simpl.
  all: first [ left; by repeat split
             | right; split; [|by eauto];
               first [ exists (Some u) | exists (Some r) | exists (Some t)
                     | exists (Some c) ];
               split; [|done]; rewrite !elem_of_cons; auto 10 ].
Qed.

(** X24. When the backend cannot be reached, or answers the dashboard
    request with an error status other than 401, the counters are left as
    they were: the mock figures of the catch block are not shown, because
    [get] reports the failure in its envelope instead of throwing. *)
Theorem loadDashboardStats_failure_keeps_page env w dom :
  (∀ r, fetches env 0%nat = Resolves r →
        ¬ 200 ≤ f_status r ≤ 299 ∧ f_status r ≠ 401) →
  let x := exec (loadDashboardStats dom) env w in
  x.2 = inr dom
  ∧ ∃ line e, console x.1 = console w ++ [(line, e)]
              ∧ line ≠ "Error loading dashboard stats:".
Proof.
  intros Hst.
  unfold loadDashboardStats, get, request, attempt, report, handleResponse. go.
  destruct (fetches env 0%nat) as [r|e]; go; [|by eauto].
  destruct (Hst r eq_refl) as [Hout H401].
  rewrite (out_2xx _ Hout), (not_401 _ H401). simpl.
  repeat (split_path; go). all: by eauto.
Qed.

(** X25. When the dashboard request is answered 2xx with a JSON object,
    the page shows what [updateStatsCards] makes of that object, and nothing
    is logged. *)
Theorem loadDashboardStats_shows_counters env w dom r fields :
  fetches env 0%nat = Resolves r →
  200 ≤ f_status r ≤ 299 →
  f_body r = inr (JObj fields) →
  let x := exec (loadDashboardStats dom) env w in
  x.2 = inr (updateStatsCards (JObj fields) dom).1
  ∧ console x.1 = console w.
Proof.
  intros Hfetch Hst Hbody.
  pose proof (updateStatsCards_returns fields dom) as Hcards.
  unfold loadDashboardStats, get, request, attempt, report, handleResponse. go.
  rewrite Hfetch. go. rewrite (in_2xx _ Hst), Hbody. go.
  destruct (updateStatsCards (JObj fields) dom) as [dom1 outcome].
  simpl in Hcards. subst outcome. by go.
Qed.

(** X26. When the dashboard request is answered 2xx with the JSON value
    [null], the page ends up showing the mock figures of the catch block
    (1250 users, $25680, 7320 tasks, 156780 credits) on the counters it
    has. *)
Theorem loadDashboardStats_null_body_shows_mock env w dom r :
  fetches env 0%nat = Resolves r →
  200 ≤ f_status r ≤ 299 →
  f_body r = inr JNull →
  let x := exec (loadDashboardStats dom) env w in
  x.2 = inr {| totalUsers := (λ _, formatNumber (JNum 1250)) <$> totalUsers dom;
               totalRevenue := (λ _, "$" +:+ formatNumber (JNum 25680))
                                 <$> totalRevenue dom;
               totalTasks := (λ _, formatNumber (JNum 7320)) <$> totalTasks dom;
               totalCredits := (λ _, formatNumber (JNum 156780)) <$> totalCredits dom |}.
Proof.
  intros Hfetch Hst Hbody.
  unfold loadDashboardStats, get, request, attempt, report, handleResponse. go.
  rewrite Hfetch. go. rewrite (in_2xx _ Hst), Hbody. go.
  unfold updateStatsCards, card, stat.
  by destruct dom as [[u|] [rv|] [t|] [c|]].
Qed.

End Client.

Existing Instance demo_platform.


(** ** The statements on the sample session *)

Lemma dispatch_steps {A} ev (p : Pool A) : rtc pool_step p (dispatch ev p).
Proof.
  destruct p as [w ts].
  destruct ev as [i o|i o|i]; simpl;
    destruct (ts !! i) as [[w0 q|w0 rq k|w0 rq k|w0 k]|] eqn:Hi;
    try apply rtc_refl; apply rtc_once.
  - by eapply step_fetch.
  - by eapply step_xhr.
  - by eapply step_tick.
Qed.

Lemma drive_steps {A} fuel i script (p : Pool A) :
  rtc pool_step p (drive fuel i script p).
Proof.
  revert script p. induction fuel as [|fuel IH]; intros script p; simpl; [done|].
  destruct (p.2 !! i) as [[w0 q|w0 rq k|w0 rq k|w0 k]|]; try done.
  - destruct script as [|o rest]; [done|].
    etrans; [apply (dispatch_steps (Deliver i o))|apply IH].
  - etrans; [apply (dispatch_steps (Turn i))|apply IH].
Qed.


Lemma request_401_signs_out_witness :
  f_status unauthorized = 401
  ∧ refresh_succeeds refused = false
  ∧ let x := exec (request demo_stringify (JStr "get") "/admin/users" JNull no_options)
                  (answers [Resolves unauthorized; refused] XhrError) session in
    x.2 = inr {| success := false; data := None;
                 error := Some "Authentication required"; retry := false |}
    ∧ signed_out x.1
    ∧ fetchLog x.1
      = [outgoing demo_stringify session "get" "/admin/users" JNull no_options;
         refresh_request demo_stringify "/api" (JStr "R1")].
Proof.
  split; [reflexivity|]. split; [reflexivity|].
  exact (proj2 (request_401_signs_out demo_stringify)
           (answers [Resolves unauthorized; refused] XhrError) session
           "get" "/admin/users" JNull no_options unauthorized
           eq_refl eq_refl (or_intror eq_refl)).
Defined.

Lemma request_null_body_error_witness :
  ¬ 200 ≤ f_status broken_null ≤ 299
  ∧ f_status broken_null ≠ 401
  ∧ (exec (request demo_stringify (JStr "get") "/admin/users" JNull no_options)
          (answers [Resolves broken_null] XhrError) session).2
    = inr {| success := false; data := None;
             error := Some "Cannot read properties of null (reading 'error')";
             retry := false |}.
Proof.
  assert (Hout : ¬ 200 ≤ f_status broken_null ≤ 299) by (simpl; lia).
  assert (Hne : f_status broken_null ≠ 401) by (simpl; lia).
  split; [exact Hout|]. split; [exact Hne|].
  exact (request_null_body_error demo_stringify
           (answers [Resolves broken_null] XhrError) session
           "get" "/admin/users" JNull no_options broken_null
           eq_refl Hout Hne eq_refl).
Defined.

Lemma upload_rejects_unparseable_witness :
  demo_parse "<html>Bad gateway</html>" = inl (SyntaxError "Unexpected token in JSON")
  ∧ (exec (upload demo_stringify demo_parse "/admin/import" [("type", "users")])
          (answers [] (XhrLoad 200 "OK" "<html>Bad gateway</html>")) session).2
    = inl (SyntaxError "Unexpected token in JSON").
Proof.
  split; [reflexivity|].
  exact (upload_rejects_unparseable demo_stringify demo_parse
           (answers [] (XhrLoad 200 "OK" "<html>Bad gateway</html>")) session
           "/admin/import" [("type", "users")] 200 "OK" "<html>Bad gateway</html>"
           (SyntaxError "Unexpected token in JSON") eq_refl eq_refl).
Defined.

Lemma refreshAuthToken_spec_witness :
  200 ≤ f_status (granted access_only) ≤ 299
  ∧ let x := exec (refreshAuthToken demo_stringify)
                  (answers [Resolves (granted access_only)] XhrError) session in
    x.2 = inr true
    ∧ token x.1 = JStr "T2"
    ∧ localStorage x.1 !! "admin_token" = Some "T2"
    ∧ refreshToken x.1 = JStr "R1"
    ∧ localStorage x.1 !! "admin_refresh_token" = Some "R1".
Proof.
  assert (Hst : 200 ≤ f_status (granted access_only) ≤ 299) by (simpl; lia).
  split; [exact Hst|].
  exact (proj1 (proj2 (proj2 (refreshAuthToken_spec demo_stringify
                                (answers [Resolves (granted access_only)] XhrError)
                                session)))
               (granted access_only) access_only eq_refl Hst eq_refl).
Defined.


Lemma request_never_throws_witness :
  fetches (answers [refused] XhrError) 0%nat = Rejects (TypeError "Failed to fetch")
  ∧ (exec (get demo_stringify demo_query "/admin/users" [("page", JNum 1)])
          (answers [refused] XhrError) session).2
    = inr {| success := false; data := None; error := Some "Failed to fetch";
             retry := false |}.
Proof.
  split; [reflexivity|].
  exact (proj1 (proj2 (proj1 (proj2 (request_never_throws demo_stringify demo_parse
                                        demo_query))
                             "/admin/users" [("page", JNum 1)]
                             (answers [refused] XhrError) session))
               (TypeError "Failed to fetch") eq_refl).
Defined.

Lemma request_refreshes_again_witness :
  200 ≤ f_status (granted fresh_tokens) ≤ 299
  ∧ let x := exec (request demo_stringify (JStr "get") "/admin/users" JNull no_options)
                  (answers [Resolves unauthorized; Resolves (granted fresh_tokens);
                            Resolves unauthorized; refused] XhrError) session in
    fetchLog x.1
    = [outgoing demo_stringify session "get" "/admin/users" JNull no_options;
       refresh_request demo_stringify "/api" (JStr "R1");
       with_headers (headers_for (JStr "T2"))
                    (outgoing demo_stringify session "get" "/admin/users" JNull
                              no_options);
       refresh_request demo_stringify "/api" (JStr "R2")].
Proof.
  assert (Hst : 200 ≤ f_status (granted fresh_tokens) ≤ 299) by (simpl; lia).
  split; [exact Hst|].
  exact (request_refreshes_again demo_stringify
           (answers [Resolves unauthorized; Resolves (granted fresh_tokens);
                     Resolves unauthorized; refused] XhrError) session
           "get" "/admin/users" JNull no_options
           unauthorized (granted fresh_tokens) fresh_tokens unauthorized
           eq_refl eq_refl eq_refl eq_refl Hst eq_refl eq_refl eq_refl).
Defined.

Lemma request_retry_mark_escapes_witness :
  (exec (request demo_stringify (JStr "get") "/admin/users" JNull no_options)
        (answers [Resolves unauthorized; Resolves (granted fresh_tokens);
                  Resolves unauthorized; Resolves (granted newer_tokens)] XhrError)
        session).2
  = inr {| success := false; data := None; error := None; retry := true |}.
Proof.
  assert (Hst : 200 ≤ f_status (granted fresh_tokens) ≤ 299) by (simpl; lia).
  assert (Hst' : 200 ≤ f_status (granted newer_tokens) ≤ 299) by (simpl; lia).
  exact (proj1 (request_retry_mark_escapes demo_stringify
                  (answers [Resolves unauthorized; Resolves (granted fresh_tokens);
                            Resolves unauthorized; Resolves (granted newer_tokens)]
                           XhrError) session
                  "get" "/admin/users" JNull no_options
                  unauthorized (granted fresh_tokens) fresh_tokens
                  unauthorized (granted newer_tokens) newer_tokens
                  eq_refl eq_refl eq_refl eq_refl Hst eq_refl eq_refl eq_refl
                  eq_refl Hst' eq_refl)).
Defined.




(** C4, as stated, fails for [upload]: when the transfer fails the promise
    rejects, so the caller gets an exception and no envelope. *)
Lemma upload_transport_failure_escapes :
  (exec (upload demo_stringify demo_parse "/admin/import" [("type", "users")])
        (answers [] XhrError) session).2
  = inl (Error "Upload failed")
  ∧ ¬ ∃ envelope,
        (exec (upload demo_stringify demo_parse "/admin/import" [("type", "users")])
              (answers [] XhrError) session).2
        = inr envelope.
Proof.
  split; [reflexivity|]. intros [envelope H]. discriminate H.
Qed.


(** C10, as stated, fails when the endpoint answers 2xx without a (truthy)
    [refresh_token]: the refresh succeeds, yet the stored refresh token is
    not replaced by the response's. *)
Lemma refresh_keeps_refresh_token :
  let x := exec (refreshAuthToken demo_stringify)
                (answers [Resolves (granted access_only)] XhrError) session in
  x.2 = inr true
  ∧ assoc "refresh_token" access_only = JUndefined
  ∧ refreshToken x.1 = JStr "R1"
  ∧ refreshToken x.1 ≠ assoc "refresh_token" access_only
  ∧ localStorage x.1 !! "admin_refresh_token" = Some "R1".
Proof.
  repeat split; try reflexivity. discriminate.
Qed.


(** ** The rest of the client on the sample session *)

Lemma login_leaves_credentials_witness :
  200 ≤ f_status (page login_reply) ≤ 299
  ∧ let x := exec (login demo_stringify (JStr "admin@example.com") (JStr "secret"))
                  (answers [Resolves (page login_reply)] XhrError) visitor in
    x.2 = inr {| success := true; data := Some login_reply; error := None;
                 retry := false |}
    ∧ token x.1 = JNull
    ∧ refreshToken x.1 = JNull
    ∧ localStorage x.1 = ∅
    ∧ ∃ rq, fetchLog x.1 = [rq]
            ∧ url rq = "/api/auth/admin/login"
            ∧ method rq = "POST"
            ∧ body rq = Some (demo_stringify
                                (JObj [("email", JStr "admin@example.com");
                                       ("password", JStr "secret")])).
Proof.
  assert (Hst : 200 ≤ f_status (page login_reply) ≤ 299) by (simpl; lia).
  split; [exact Hst|].
  exact (login_leaves_credentials demo_stringify
           (answers [Resolves (page login_reply)] XhrError) visitor
           (JStr "admin@example.com") (JStr "secret") (page login_reply) login_reply
           eq_refl Hst eq_refl).
Defined.

Lemma upload_success_witness :
  200 ≤ 201 < 300
  ∧ let x := exec (upload demo_stringify demo_parse "/admin/import" import_form)
                  (answers [] (XhrLoad 201 "CREATED" "{}")) session in
    x.2 = inr {| success := true; data := Some (JObj []); error := None;
                 retry := false |}
    ∧ token x.1 = JStr "T1"
    ∧ refreshToken x.1 = JStr "R1"
    ∧ localStorage x.1 = localStorage session
    ∧ fetchLog x.1 = [].
Proof.
  assert (Hst : 200 ≤ 201 < 300) by lia.
  split; [exact Hst|].
  exact (upload_success demo_stringify demo_parse
           (answers [] (XhrLoad 201 "CREATED" "{}")) session
           "/admin/import" import_form 201 "CREATED" "{}" (JObj [])
           eq_refl Hst eq_refl).
Defined.

Lemma upload_401_not_resent_witness :
  200 ≤ f_status (granted fresh_tokens) ≤ 299
  ∧ let x := exec (upload demo_stringify demo_parse "/admin/import" import_form)
                  (answers [Resolves (granted fresh_tokens)]
                           (XhrLoad 401 "UNAUTHORIZED" "{}")) session in
    x.2 = inr {| success := false; data := None; error := None; retry := true |}
    ∧ token x.1 = JStr "T2"
    ∧ length (xhrLog x.1) = 1%nat.
Proof.
  assert (Hst : 200 ≤ f_status (granted fresh_tokens) ≤ 299) by (simpl; lia).
  split; [exact Hst|].
  exact (upload_401_not_resent demo_stringify demo_parse
           (answers [Resolves (granted fresh_tokens)] (XhrLoad 401 "UNAUTHORIZED" "{}"))
           session "/admin/import" import_form "UNAUTHORIZED" "{}" (JObj [])
           (granted fresh_tokens) fresh_tokens
           eq_refl eq_refl eq_refl eq_refl Hst eq_refl).
Defined.

Lemma upload_http_error_rejects_witness :
  ¬ 200 ≤ 500 < 300
  ∧ 500 ≠ 401
  ∧ let x := exec (upload demo_stringify demo_parse "/admin/import" import_form)
                  (answers [] (XhrLoad 500 "INTERNAL SERVER ERROR" "{}")) session in
    x.2 = inl (Error "HTTP 500: INTERNAL SERVER ERROR")
    ∧ token x.1 = JStr "T1"
    ∧ refreshToken x.1 = JStr "R1".
Proof.
  assert (Hout : ¬ 200 ≤ 500 < 300) by lia.
  assert (Hne : 500 ≠ 401) by lia.
  split; [exact Hout|]. split; [exact Hne|].
  pose proof (upload_http_error_rejects demo_stringify demo_parse
                (answers [] (XhrLoad 500 "INTERNAL SERVER ERROR" "{}")) session
                "/admin/import" import_form 500 "INTERNAL SERVER ERROR" "{}" []
                eq_refl Hout Hne eq_refl) as H.
  exact (conj (proj1 H) (proj2 (proj2 H))).
Defined.

Lemma methodless_run_returns :
  batch demo_stringify mixed_requests session
    (methodless_run demo_stringify).1
    (imap (entry mixed_requests)
          [inl (TypeError "Cannot read properties of undefined (reading 'toUpperCase')");
           inr (succeeded users_page)]).
Proof.
  apply (batch_settled _ _ _ _ (methodless_run demo_stringify).2).
  - rewrite <- surjective_pairing. apply drive_steps.
  - by vm_compute.
Qed.

Lemma batch_reports_rejected_member_witness :
  let entries :=
    imap (entry mixed_requests)
         [inl (TypeError "Cannot read properties of undefined (reading 'toUpperCase')");
          inr (succeeded users_page)] in
  batch demo_stringify mixed_requests session (methodless_run demo_stringify).1 entries
  ∧ entries !! 0%nat
    = Some {| b_request := Some methodless; b_success := false; b_data := JNull;
              b_error := JStr "Cannot read properties of undefined (reading 'toUpperCase')" |}.
Proof.
  split; [exact methodless_run_returns|].
  exact (proj2 (batch_reports_rejected_member demo_stringify mixed_requests session
                  _ _ 0%nat methodless
                  (TypeError "Cannot read properties of undefined (reading 'toUpperCase')")
                  methodless_run_returns eq_refl eq_refl)).
Defined.

Lemma request_retry_keeps_request_witness :
  200 ≤ f_status (granted fresh_tokens) ≤ 299
  ∧ let x := exec (request demo_stringify (JStr "get") "/admin/users" JNull traced)
                  (answers [Resolves unauthorized; Resolves (granted fresh_tokens);
                            Resolves (page users_page)] XhrError) session in
    let first := outgoing demo_stringify session "get" "/admin/users" JNull traced in
    ∃ again more,
      fetchLog x.1
      = [first; refresh_request demo_stringify "/api" (JStr "R1"); again] ++ more
      ∧ url again = url first
      ∧ method again = method first
      ∧ body again = body first
      ∧ headers again = headers_for (JStr "T2")
      ∧ (length more ≤ 1)%nat.
Proof.
  assert (Hst : 200 ≤ f_status (granted fresh_tokens) ≤ 299) by (simpl; lia).
  split; [exact Hst|].
  exact (request_retry_keeps_request demo_stringify
           (answers [Resolves unauthorized; Resolves (granted fresh_tokens);
                     Resolves (page users_page)] XhrError) session
           "get" "/admin/users" JNull traced
           unauthorized (granted fresh_tokens) fresh_tokens
           eq_refl eq_refl eq_refl eq_refl Hst eq_refl).
Defined.

Lemma request_non401_keeps_credentials_witness :
  (∀ r, fetches (answers [Resolves broken_null] XhrError) 0%nat = Resolves r →
        f_status r ≠ 401)
  ∧ let x := exec (request demo_stringify (JStr "get") "/admin/users" JNull no_options)
                  (answers [Resolves broken_null] XhrError) session in
    token x.1 = JStr "T1"
    ∧ refreshToken x.1 = JStr "R1"
    ∧ localStorage x.1 = localStorage session
    ∧ location_href x.1 = "/admin/dashboard"
    ∧ fetchLog x.1 = [outgoing demo_stringify session "get" "/admin/users" JNull
                               no_options].
Proof.
  assert (Hst : ∀ r, fetches (answers [Resolves broken_null] XhrError) 0%nat = Resolves r →
                     f_status r ≠ 401).
  { intros r [= <-]. simpl. lia. }
  split; [exact Hst|].
  exact (request_non401_keeps_credentials demo_stringify
           (answers [Resolves broken_null] XhrError) session
           "get" "/admin/users" JNull no_options Hst).
Defined.

Lemma handleResponse_401_outcomes_witness :
  ok (of_fetch unauthorized) = false
  ∧ let x := exec (handleResponse demo_stringify (of_fetch unauthorized))
                  (answers [Resolves (granted access_only)] XhrError) session in
    (∃ e, json (of_fetch unauthorized) = inl e ∧ x = (session, inl e))
    ∨ ((∃ p, json (of_fetch unauthorized) = inr p)
       ∧ x.2 = inr retry_envelope
       ∧ truthy (refreshToken session) = true
       ∧ refresh_succeeds (Resolves (granted access_only)) = true
       ∧ truthy (refreshToken x.1) = true
       ∧ location_href x.1 = "/admin/dashboard")
    ∨ ((∃ p, json (of_fetch unauthorized) = inr p)
       ∧ x.2 = inr auth_required
       ∧ signed_out x.1).
Proof.
  split; [reflexivity|].
  exact (handleResponse_401_outcomes demo_stringify
           (answers [Resolves (granted access_only)] XhrError) session
           (of_fetch unauthorized) eq_refl eq_refl).
Defined.

Lemma checkSystemStatus_failure_keeps_indicator_witness :
  (∀ r, fetches (answers [Resolves unavailable] XhrError) 0%nat = Resolves r →
        ¬ 200 ≤ f_status r ≤ 299 ∧ f_status r ≠ 401)
  ∧ let x := exec (checkSystemStatus demo_stringify demo_query status_light)
                  (answers [Resolves unavailable] XhrError) session in
    x.2 = inr status_light
    ∧ ∃ line e, console x.1 = [(line, e)]
                ∧ line ≠ "Error checking system status:".
Proof.
  assert (Hst : ∀ r, fetches (answers [Resolves unavailable] XhrError) 0%nat = Resolves r →
                     ¬ 200 ≤ f_status r ≤ 299 ∧ f_status r ≠ 401).
  { intros r [= <-]. simpl. lia. }
  split; [exact Hst|].
  exact (checkSystemStatus_failure_keeps_indicator demo_stringify demo_query
           (answers [Resolves unavailable] XhrError) session status_light Hst).
Defined.

Lemma checkSystemStatus_shows_health_witness :
  200 ≤ f_status (granted health_report) ≤ 299
  ∧ let x := exec (checkSystemStatus demo_stringify demo_query status_light)
                  (answers [Resolves (granted health_report)] XhrError) session in
    x.2 = inr (Some {| className := "status-indicator online";
                       sibling_text := Some "النظام متصل" |})
    ∧ console x.1 = [].
Proof.
  assert (Hst : 200 ≤ f_status (granted health_report) ≤ 299) by (simpl; lia).
  split; [exact Hst|].
  exact (proj1 (checkSystemStatus_shows_health demo_stringify demo_query
                  (answers [Resolves (granted health_report)] XhrError) session
                  status_light (granted health_report) eq_refl Hst)
               health_report eq_refl).
Defined.

Lemma updateStatsCards_null_throws_witness :
  (JNull = JNull ∨ JNull = JUndefined)
  ∧ ((totalUsers counters = None ∧ totalRevenue counters = None
      ∧ totalTasks counters = None ∧ totalCredits counters = None
      ∧ updateStatsCards demo_format JNull counters = (counters, inr tt))
     ∨ ((∃ text, text ∈ [totalUsers counters; totalRevenue counters;
                         totalTasks counters; totalCredits counters] ∧ text ≠ None)
        ∧ ∃ msg, updateStatsCards demo_format JNull counters
                 = (counters, inl (TypeError msg)))).
Proof.
  exact (conj (or_introl eq_refl)
              (updateStatsCards_null_throws demo_format JNull counters
                 (or_introl eq_refl))).
Defined.

Lemma loadDashboardStats_failure_keeps_page_witness :
  (∀ r, fetches (answers [Resolves unavailable] XhrError) 0%nat = Resolves r →
        ¬ 200 ≤ f_status r ≤ 299 ∧ f_status r ≠ 401)
  ∧ let x := exec (loadDashboardStats demo_stringify demo_query demo_format counters)
                  (answers [Resolves unavailable] XhrError) session in
    x.2 = inr counters
    ∧ ∃ line e, console x.1 = [(line, e)]
                ∧ line ≠ "Error loading dashboard stats:".
Proof.
  assert (Hst : ∀ r, fetches (answers [Resolves unavailable] XhrError) 0%nat = Resolves r →
                     ¬ 200 ≤ f_status r ≤ 299 ∧ f_status r ≠ 401).
  { intros r [= <-]. simpl. lia. }
  split; [exact Hst|].
  exact (loadDashboardStats_failure_keeps_page demo_stringify demo_query demo_format
           (answers [Resolves unavailable] XhrError) session counters Hst).
Defined.

Lemma loadDashboardStats_shows_counters_witness :
  200 ≤ f_status (granted dashboard_figures) ≤ 299
  ∧ let x := exec (loadDashboardStats demo_stringify demo_query demo_format counters)
                  (answers [Resolves (granted dashboard_figures)] XhrError) session in
    x.2 = inr {| totalUsers := Some "#12"; totalRevenue := Some "$#0";
                 totalTasks := Some "#7"; totalCredits := None |}
    ∧ console x.1 = [].
Proof.
  assert (Hst : 200 ≤ f_status (granted dashboard_figures) ≤ 299) by (simpl; lia).
  split; [exact Hst|].
  exact (loadDashboardStats_shows_counters demo_stringify demo_query demo_format
           (answers [Resolves (granted dashboard_figures)] XhrError) session counters
           (granted dashboard_figures) dashboard_figures eq_refl Hst eq_refl).
Defined.

Lemma loadDashboardStats_null_body_shows_mock_witness :
  200 ≤ f_status (page JNull) ≤ 299
  ∧ let x := exec (loadDashboardStats demo_stringify demo_query demo_format counters)
                  (answers [Resolves (page JNull)] XhrError) session in
    x.2 = inr {| totalUsers := Some "#1250"; totalRevenue := Some "$#25680";
                 totalTasks := Some "#7320"; totalCredits := None |}.
Proof.
  assert (Hst : 200 ≤ f_status (page JNull) ≤ 299) by (simpl; lia).
  split; [exact Hst|].
  exact (loadDashboardStats_null_body_shows_mock demo_stringify demo_query demo_format
           (answers [Resolves (page JNull)] XhrError) session counters (page JNull)
           eq_refl Hst eq_refl).
Defined.
